(** * In-place rolling update of machine deployments

    A shallow embedding of the in-place rollout logic of the machine
    controller manager (package [controller]): the ownership transfer of
    updated machines to the new machine set, the budgeted selection of
    machines of the old machine sets, and the two orchestrators that
    sequence them.

    The controller talks to a cluster through listers and clients.  Every
    such call is recorded in a trace; what the caches hold and which calls
    fail is given by a [Cluster], as a function of the trace so far, so the
    theorems hold for every behaviour of the informer caches and for every
    pattern of remote failures. *)

From Stdlib Require Import ZArith Lia.
From stdpp Require Import gmap strings list fin_maps sorting.

Local Open Scope Z_scope.

(** ** 32-bit signed integers

    [int32] values are integers of [Z]; arithmetic wraps around as in Go. *)
Module Int32.

Definition modulus : Z := 2 ^ 32.
Definition min_int : Z := - 2 ^ 31.
Definition max_int : Z := 2 ^ 31 - 1.

Definition in_range (z : Z) : Prop := min_int <= z <= max_int.

(** Reduction of an integer to its 32-bit two's complement value. *)
Definition wrap (z : Z) : Z := (z + 2 ^ 31) mod modulus - 2 ^ 31.

Definition add (a b : Z) : Z := wrap (a + b).
Definition sub (a b : Z) : Z := wrap (a - b).

(** [int32(len(xs))] *)
Definition of_len {A} (xs : list A) : Z := wrap (Z.of_nat (length xs)).

End Int32.

(** ** Labels and selectors *)

Abbreviation Labels := (gmap string string).

(** The label keys of package [v1alpha1]. *)
Definition NodeLabelKey : string := "node".
Definition LabelKeyMachineCandidateForUpdate : string :=
  "node.machine.sapcloud.io/candidate-for-update".
Definition LabelKeyMachineSelectedForUpdate : string :=
  "node.machine.sapcloud.io/selected-for-update".
Definition LabelKeyMachineUpdateSuccessful : string :=
  "node.machine.sapcloud.io/update-successful".
Definition LabelKeyMachineSetSkipUpdate : string :=
  "node.machine.sapcloud.io/machine-set-skip-update".
Definition PreferNoScheduleKey : string :=
  "deployment.machine.sapcloud.io/prefer-no-schedule".

(** [m[k]] of a Go [map[string]string]: the empty string when [k] is absent. *)
Definition labelValue (m : Labels) (k : string) : string := default "" (m !! k).

(** Modelled from the spec: [MergeStringMaps] is not among the sources.  A
    pure merge of label maps in which the maps given later take precedence
    over the base map. *)
Definition MergeStringMaps (oldMap newMap : Labels) : Labels := newMap ∪ oldMap.

(** Modelled from the spec: [MergeWithOverwriteAndFilter] is not among the
    sources.  The current labels without the keys of the old selector,
    overwritten with the labels of the new selector. *)
Definition MergeWithOverwriteAndFilter (current oldSel newSel : Labels) : Labels :=
  newSel ∪ filter (λ kv, oldSel !! kv.1 = None) current.

(** [labels.SelectorFromSet(sel).Matches(ls)]: every pair of [sel] is a
    pair of [ls]. *)
Definition selects (sel ls : Labels) : Prop :=
  map_Forall (λ k v, ls !! k = Some v) sel.

Global Instance selects_dec sel ls : Decision (selects sel ls).
Proof. unfold selects. apply _. Defined.

(** ** Cluster objects *)

Record Machine := {
  mName : string;
  mNamespace : string;
  mUID : string;
  mLabels : Labels;
}.

Record Node := {
  nName : string;
  nLabels : Labels;
  nUnschedulable : bool;
}.

Record MachineSet := {
  isName : string;
  isUID : string;
  isCreationTimestamp : Z;
  (** [Spec.Selector.MatchLabels] *)
  isSelector : Labels;
  (** [Spec.Replicas] *)
  isReplicas : Z;
  (** [Status.AvailableReplicas] *)
  isAvailableReplicas : Z;
}.

Record MachineDeployment := {
  dName : string;
  (** [Spec.Replicas] *)
  dReplicas : Z;
}.

Definition withReplicas (ms : MachineSet) (n : Z) : MachineSet :=
  {| isName := isName ms; isUID := isUID ms;
     isCreationTimestamp := isCreationTimestamp ms;
     isSelector := isSelector ms; isReplicas := n;
     isAvailableReplicas := isAvailableReplicas ms |}.

Definition uncordoned (n : Node) : Node :=
  {| nName := nName n; nLabels := nLabels n; nUnschedulable := false |}.

Definition withNodeLabel (n : Node) (k v : string) : Node :=
  {| nName := nName n; nLabels := <[k := v]> (nLabels n);
     nUnschedulable := nUnschedulable n |}.

Global Instance Machine_eq_dec : EqDecision Machine.
Proof. solve_decision. Defined.
Global Instance Node_eq_dec : EqDecision Node.
Proof. solve_decision. Defined.
Global Instance MachineSet_eq_dec : EqDecision MachineSet.
Proof. solve_decision. Defined.

(** ** Errors, calls and the cluster *)

(** Errors of the API machinery. *)
Inductive RemoteError :=
| NotFound (name : string)
| ServerError (reason : string).

(** Errors the controller returns: a remote error passed on, or one of the
    errors it builds itself with [fmt.Errorf]. *)
Inductive Error :=
| Remote (e : RemoteError)
(** "when selecting machine from old IS for update, got invalid request %s %d -> %d" *)
| InvalidRequest (name : string) (oldCount newCount : Z)
(** "failed to uncordon the node %s" *)
| UncordonFailed (node : string)
(** "failed to label nodes backing old machine sets as candidate for update: %v" *)
| CandidateLabelFailed (e : Error)
(** "failed to sync machine sets %s" *)
| SyncMachineSetsFailed (e : Error).

(** [apierrors.IsNotFound] *)
Definition IsNotFound (e : Error) : bool :=
  match e with
  | Remote (NotFound _) => true
  | _ => false
  end.

(** [schema.GroupVersionKind] of the API machinery. *)
Record GroupVersionKind := {
  gvkGroup : string;
  gvkVersion : string;
  gvkKind : string
}.

(** Modelled from the spec: [v1alpha1.SchemeGroupVersion] is not among the
    sources.  Its group and version are those of the [apiVersion] the
    ownership patch writes, "machine.sapcloud.io/v1alpha1";
    [SchemeGroupVersion.WithKind(kind)] adds the kind. *)
Definition SchemeGroupVersion_WithKind (kind : string) : GroupVersionKind :=
  {| gvkGroup := "machine.sapcloud.io"; gvkVersion := "v1alpha1"; gvkKind := kind |}.

(** What the verb [%s] of [fmt.Sprintf] prints for a [GroupVersionKind]:
    its [String] method, group, version and kind in one string. *)
Definition GroupVersionKind_String (gvk : GroupVersionKind) : string :=
  gvkGroup gvk +:+ "/" +:+ gvkVersion gvk +:+ ", Kind=" +:+ gvkKind gvk.

(** The two JSON patches the controller sends for a machine. *)
Inductive Patch :=
(** [{"metadata":{"labels":{...}}}] *)
| LabelsPatch (labels : Labels)
(** [{"metadata":{"ownerReferences":[{... "kind","name","uid" ...}],"labels":{...},"uid":...}}] *)
| OwnerPatch (ownerKind ownerName ownerUID : string) (labels : Labels) (uid : string).

(** The calls to listers, clients and to the collaborators of the rollout. *)
Inductive Call :=
| MachineList (selector : Labels)
| NodeList (selector : Labels)
| NodeGet (name : string)
| TargetNodeGet (name : string)
| TargetNodeUpdate (n : Node)
| ControlNodeUpdate (n : Node)
| PatchMachine (namespace name : string) (p : Patch)
| MachineSetUpdate (name : string) (replicas : Z)
| GetAllMachineSetsAndSyncRevision (deployment : string)
| TaintNodesBackingMachineSets (machineSets : list string) (key : string)
| AnnotateNodesBackingMachineSets (machineSets : list string)
| LabelMachineSets (machineSets : list string) (key : string)
| SyncMachineSets (deployment : string)
| SyncRolloutStatus (deployment : string)
| RemoveAutoscalerAnnotationsIfRequired (machineSets : list string)
| CleanupMachineDeployment (deployment : string).

(** A call with its outcome; a trace lists the latest call first. *)
Abbreviation Entry := (Call * option RemoteError)%type.

(** What the controller cannot decide itself: the contents of the informer
    caches and of the API server, the failures of remote calls, and the
    helpers of the package that compute over a deployment.  All of them may
    depend on the calls made so far. *)
Record Cluster := {
  (** contents of the machine informer cache *)
  machineCache : list Entry → list Machine;
  (** contents of the node informer cache *)
  nodeCache : list Entry → list Node;
  (** nodes held by the API server of the target cluster *)
  targetNodes : list Entry → list Node;
  (** the error of a call, if it fails *)
  fault : list Entry → Call → option RemoteError;
  (** the new and the old machine sets [getAllMachineSetsAndSyncRevision] finds *)
  revisions : list Entry → MachineDeployment → list MachineSet → MachineSet * list MachineSet;
  (** [MaxUnavailable] of the deployment's strategy, an [int32]; the
      function is not among the sources *)
  MaxUnavailable : MachineDeployment → Z;
  (** the machine sets [FilterActiveMachineSets] keeps; the function is not
      among the sources *)
  FilterActiveMachineSets : list MachineSet → list MachineSet;
  (** the completeness check of the deployment against its status *)
  MachineDeploymentComplete : list Entry → MachineDeployment → bool;
  (** the controller's flag of the same name *)
  autoscalerScaleDownAnnotationDuringRollout : bool;
}.

(** The state a pass works on: the calls made so far and the replica counts
    written to machine sets so far. *)
Record World := {
  trace : list Entry;
  scaledTo : gmap string Z;
}.

(** The machine set as the API server holds it: with the replica count of
    the last successful scaling, if there was one. *)
Definition stored (w : World) (ms : MachineSet) : MachineSet :=
  withReplicas ms (default (isReplicas ms) (scaledTo w !! isName ms)).

(** Go functions return a value and an [error]. *)
Definition Result (A : Type) : Type := A * option Error.

(** A Go function returns or panics. *)
Inductive Outcome (A : Type) :=
| Done (a : A)
| Panicked.
Arguments Done {A} a.
Arguments Panicked {A}.

(** The body of a loop either goes on with new values of the variables it
    updates, or leaves the function with a [return]. *)
Inductive Flow (S R : Type) :=
| Next (s : S)
| Return (r : R).
Arguments Next {S R} s.
Arguments Return {S R} r.

Section Calls.
Context (c : Cluster).

(** A remote call: the cluster decides its outcome, the trace records it. *)
Definition call (w : World) (k : Call) : World * option RemoteError :=
  let r := fault c (trace w) k in
  ({| trace := (k, r) :: trace w; scaledTo := scaledTo w |}, r).

(** A call of which only the error is used. *)
Definition invoke (w : World) (k : Call) : World * option Error :=
  let '(w', r) := call w k in (w', Remote <$> r).

(** [dc.machineLister.List(labels.SelectorFromSet(selector))] *)
Definition machineLister_List (w : World) (selector : Labels) : World * Result (list Machine) :=
  let '(w', r) := call w (MachineList selector) in
  match r with
  | Some e => (w', ([], Some (Remote e)))
  | None => (w', (filter (λ m, selects selector (mLabels m)) (machineCache c (trace w)), None))
  end.

(** [dc.nodeLister.List(labels.SelectorFromSet(selector))] *)
Definition nodeLister_List (w : World) (selector : Labels) : World * Result (list Node) :=
  let '(w', r) := call w (NodeList selector) in
  match r with
  | Some e => (w', ([], Some (Remote e)))
  | None => (w', (filter (λ n, selects selector (nLabels n)) (nodeCache c (trace w)), None))
  end.

Definition findNode (name : string) (nodes : list Node) : option Node :=
  list_find (λ n, nName n = name) nodes ≫= λ p, Some p.2.

(** [dc.nodeLister.Get(name)]: the node, or an error; not-found when the
    cache has no such node. *)
Definition nodeLister_Get (w : World) (name : string) : World * (Error + Node) :=
  let '(w', r) := call w (NodeGet name) in
  match r with
  | Some e => (w', inl (Remote e))
  | None =>
      match findNode name (nodeCache c (trace w)) with
      | Some n => (w', inr n)
      | None => (w', inl (Remote (NotFound name)))
      end
  end.

(** [dc.targetCoreClient.CoreV1().Nodes().Get(ctx, name, ...)] *)
Definition targetNodes_Get (w : World) (name : string) : World * (Error + Node) :=
  let '(w', r) := call w (TargetNodeGet name) in
  match r with
  | Some e => (w', inl (Remote e))
  | None =>
      match findNode name (targetNodes c (trace w)) with
      | Some n => (w', inr n)
      | None => (w', inl (Remote (NotFound name)))
      end
  end.

(** [dc.machineControl.PatchMachine(ctx, namespace, name, patch)] *)
Definition machineControl_PatchMachine (w : World) (namespace name : string) (p : Patch)
  : World * option Error :=
  invoke w (PatchMachine namespace name p).

(** Modelled from the spec: [scaleMachineSetAndRecordEvent] is not among the
    sources.  It scales a generation to a target replica count and reports
    whether any scaling occurred; the call may fail, and then nothing is
    written.  Of its three results the machine set is dropped, as every
    caller here drops it. *)
Definition scaleMachineSetAndRecordEvent (w : World) (ms : MachineSet) (newScale : Z)
    (deployment : MachineDeployment) : World * Result bool :=
  let '(w', r) := call w (MachineSetUpdate (isName ms) newScale) in
  match r with
  | Some e => (w', (false, Some (Remote e)))
  | None =>
      ({| trace := trace w'; scaledTo := <[isName ms := newScale]> (scaledTo w') |},
       (bool_decide (isReplicas ms ≠ newScale), None))
  end.

End Calls.

(** Modelled from the spec: [GetReplicaCountForMachineSets] is not among the
    sources.  The total of the desired replicas of a set of generations, an
    [int32]. *)
Definition GetReplicaCountForMachineSets (machineSets : list MachineSet) : Z :=
  foldl (λ total ms, Int32.add total (isReplicas ms)) 0 machineSets.

(** Modelled from the spec: [GetAvailableReplicaCountForMachineSets] is not
    among the sources.  The total of the available replicas of a set of
    generations, an [int32]. *)
Definition GetAvailableReplicaCountForMachineSets (machineSets : list MachineSet) : Z :=
  foldl (λ total ms, Int32.add total (isAvailableReplicas ms)) 0 machineSets.

(** Modelled from the spec: [getMachineFromNode] is not among the sources.
    The machine of the list whose node label names the node; [None] stands
    for its error when there is none. *)
Definition getMachineFromNode (machines : list Machine) (node : Node) : option Machine :=
  list_find (λ m, labelValue (mLabels m) NodeLabelKey = nName node) machines ≫= λ p, Some p.2.

(** Modelled from the spec: [MachineSetsByCreationTimestamp] is not among
    the sources.  Generations are ordered by creation timestamp, ascending. *)
Definition olderOrEqual (a b : MachineSet) : Prop :=
  isCreationTimestamp a <= isCreationTimestamp b.

Global Instance olderOrEqual_dec : RelDecision olderOrEqual.
Proof. intros a b. unfold olderOrEqual. apply _. Defined.

(** [sort.Sort(MachineSetsByCreationTimestamp(machineSets))] *)
Definition sortByCreationTimestamp (machineSets : list MachineSet) : list MachineSet :=
  merge_sort olderOrEqual machineSets.

(** Modelled from the spec: [machineSetsScaledToZero] is not among the
    sources.  Whether the generations are all scaled to zero. *)
Definition machineSetsScaledToZero (machineSets : list MachineSet) : bool :=
  forallb (λ ms, bool_decide (isReplicas ms = 0)) machineSets.

(** ** The controller *)

Section Controller.
Context (c : Cluster).

(** *** Ownership transfer to the new machine set *)

(** The body of [for _, node := range nodes] of
    [reconcileNewMachineSetInPlace], with the two counters it updates.  The
    node is uncordoned in place, in the object the lister handed out; what
    later listings return is up to the cluster. *)
Fixpoint transferNodes (w : World) (newIS ms : MachineSet) (deployment : MachineDeployment)
    (machines : list Machine) (nodes : list Node)
    (transfferedMachineCount addedNewReplicasCount : Z)
  : World * Flow (Z * Z) (Result bool) :=
  match nodes with
  | [] => (w, Next (transfferedMachineCount, addedNewReplicasCount))
  | node :: nodes' =>
      match getMachineFromNode machines node with
      | None =>
          (* ignore error, if machine not found for the node. *)
          transferNodes w newIS ms deployment machines nodes'
            transfferedMachineCount addedNewReplicasCount
      | Some machine =>
          let machineNewLabels :=
            MergeStringMaps
              (MergeWithOverwriteAndFilter (mLabels machine) (isSelector ms) (isSelector newIS))
              {[ LabelKeyMachineUpdateSuccessful := "true" ]} in
          let addControllerPatch :=
            OwnerPatch (GroupVersionKind_String (SchemeGroupVersion_WithKind "MachineSet"))
              (isName newIS) (isUID newIS) machineNewLabels (mUID machine) in
          let '(w1, err) :=
            machineControl_PatchMachine c w (mNamespace machine) (mName machine)
              addControllerPatch in
          match err with
          | Some err =>
              (* scale up the new machine set to the already added replicas. *)
              let '(w2, (scaled, err2)) :=
                scaleMachineSetAndRecordEvent c w1 newIS
                  (Int32.add (isReplicas newIS) addedNewReplicasCount) deployment in
              match err2 with
              | Some err2 => (w2, Return (bool_decide (0 < addedNewReplicasCount), Some err2))
              | None =>
                  let '(w3, (_, err2)) :=
                    scaleMachineSetAndRecordEvent c w2 ms
                      (Int32.sub (isReplicas ms) transfferedMachineCount) deployment in
                  match err2 with
                  | Some _ => (w3, Return (bool_decide (0 < addedNewReplicasCount), Some err))
                  | None => (w3, Return (scaled, Some err))
                  end
              end
          | None =>
              (* uncordon the node *)
              let '(w2, err) := invoke c w1 (ControlNodeUpdate (uncordoned node)) in
              match err with
              | Some _ => (w2, Return (false, Some (UncordonFailed (nName node))))
              | None =>
                  transferNodes w2 newIS ms deployment machines nodes'
                    (Int32.add transfferedMachineCount 1) (Int32.add addedNewReplicasCount 1)
              end
          end
      end
  end.

(** The body of [for _, is := range oldISs] of
    [reconcileNewMachineSetInPlace]. *)
Fixpoint transferMachineSets (w : World) (newIS : MachineSet) (deployment : MachineDeployment)
    (oldISs : list MachineSet) (addedNewReplicasCount : Z)
  : World * Flow Z (Result bool) :=
  match oldISs with
  | [] => (w, Next addedNewReplicasCount)
  | ms :: oldISs' =>
      let '(w1, (machines, err)) := machineLister_List c w (isSelector ms) in
      match err with
      | Some err => (w1, Return (false, Some err))
      | None =>
          let '(w2, (nodes, err)) :=
            nodeLister_List c w1 {[ LabelKeyMachineUpdateSuccessful := "true" ]} in
          match err with
          | Some err => (w2, Return (false, Some err))
          | None =>
              match transferNodes w2 newIS ms deployment machines nodes 0 addedNewReplicasCount with
              | (w3, Return r) => (w3, Return r)
              | (w3, Next (transfferedMachineCount, addedNewReplicasCount)) =>
                  let '(w4, (_, err)) :=
                    scaleMachineSetAndRecordEvent c w3 ms
                      (Int32.sub (isReplicas ms) transfferedMachineCount) deployment in
                  match err with
                  | Some err => (w4, Return (bool_decide (0 < addedNewReplicasCount), Some err))
                  | None => transferMachineSets w4 newIS deployment oldISs' addedNewReplicasCount
                  end
              end
          end
      end
  end.

Definition reconcileNewMachineSetInPlace (w : World) (oldISs : list MachineSet)
    (newIS : MachineSet) (deployment : MachineDeployment) : World * Result bool :=
  if bool_decide (isReplicas newIS = dReplicas deployment) then
    (* Scaling not required. *)
    (w, (false, None))
  else if bool_decide (isReplicas newIS > dReplicas deployment) then
    (* Scale down. *)
    scaleMachineSetAndRecordEvent c w newIS (dReplicas deployment) deployment
  else
    match transferMachineSets w newIS deployment oldISs 0 with
    | (w1, Return r) => (w1, r)
    | (w1, Next addedNewReplicasCount) =>
        scaleMachineSetAndRecordEvent c w1 newIS
          (Int32.add (isReplicas newIS) addedNewReplicasCount) deployment
    end.

(** *** Selection of machines of the old machine sets *)

Definition getMachinesUndergoingUpdate_loop :=
  fix go (w : World) (oldISs : list MachineSet) (machineInUpdateProcess : Z)
    : World * Result Z :=
    match oldISs with
    | [] => (w, (machineInUpdateProcess, None))
    | ms :: oldISs' =>
        let '(w1, (machines, err)) :=
          machineLister_List c w
            (MergeStringMaps (isSelector ms) {[ LabelKeyMachineSelectedForUpdate := "true" ]}) in
        match err with
        | Some err => (w1, (0, Some err))
        | None => go w1 oldISs' (Int32.add machineInUpdateProcess (Int32.of_len machines))
        end
    end.

Definition getMachinesUndergoingUpdate (w : World) (oldISs : list MachineSet) : World * Result Z :=
  getMachinesUndergoingUpdate_loop w oldISs 0.

Definition getMachinesForDrain (w : World) (ms : MachineSet) (readyForDrain : Z)
  : World * Outcome (Result (list Machine)) :=
  (* select only those machines which are candidate for update *)
  let '(w1, (machines, err)) :=
    machineLister_List c w
      (MergeStringMaps (isSelector ms) {[ LabelKeyMachineCandidateForUpdate := "true" ]}) in
  match err with
  | Some err => (w1, Done ([], Some err))
  | None =>
      (* delete machines which are already selected for update. *)
      let machinesWithoutSelectedForUpdate :=
        filter (λ m, mLabels m !! LabelKeyMachineSelectedForUpdate = None) machines in
      if bool_decide (Z.of_nat (length machinesWithoutSelectedForUpdate) > readyForDrain) then
        (* [machinesWithoutSelectedForUpdate[:readyForDrain]] panics on a negative bound *)
        if bool_decide (0 <= readyForDrain) then
          (w1, Done (take (Z.to_nat readyForDrain) machinesWithoutSelectedForUpdate, None))
        else (w1, Panicked)
      else (w1, Done (machinesWithoutSelectedForUpdate, None))
  end.

(** The body of [for _, machine := range machines] of
    [labelMachinesToSelectedForUpdate]. *)
Fixpoint labelSelected (w : World) (machines : list Machine) (machinesSelectedForUpdate : Z)
  : World * Result Z :=
  match machines with
  | [] => (w, (machinesSelectedForUpdate, None))
  | machine :: machines' =>
      let labels :=
        MergeStringMaps (mLabels machine) {[ LabelKeyMachineSelectedForUpdate := "true" ]} in
      let '(w1, err) :=
        machineControl_PatchMachine c w (mNamespace machine) (mName machine)
          (LabelsPatch labels) in
      match err with
      | Some err => (w1, (machinesSelectedForUpdate, Some err))
      | None => labelSelected w1 machines' (Int32.add machinesSelectedForUpdate 1)
      end
  end.

Definition labelMachinesToSelectedForUpdate (w : World) (ms : MachineSet) (newScale : Z)
  : World * Outcome (Result Z) :=
  let machinesSelectedForUpdate := 0 in
  let readyForDrain := Int32.sub (isReplicas ms) newScale in
  match getMachinesForDrain w ms readyForDrain with
  | (w1, Panicked) => (w1, Panicked)
  | (w1, Done (machines, Some err)) => (w1, Done (machinesSelectedForUpdate, Some err))
  | (w1, Done (machines, None)) =>
      let '(w2, r) := labelSelected w1 machines machinesSelectedForUpdate in (w2, Done r)
  end.

(** The locals [readyForUpdateCount] and [newReplicasCount] of the loop of
    [selectMachineForUpdate]. *)
Definition readyForUpdateCount (targetIS : MachineSet)
    (totalReadyForUpdateCount totalReadyForUpdate : Z) : Z :=
  Int32.wrap (Z.min (isReplicas targetIS)
                    (Int32.sub totalReadyForUpdateCount totalReadyForUpdate)).

Definition newReplicasCount (targetIS : MachineSet)
    (totalReadyForUpdateCount totalReadyForUpdate : Z) : Z :=
  Int32.sub (isReplicas targetIS)
            (readyForUpdateCount targetIS totalReadyForUpdateCount totalReadyForUpdate).

(** The body of [for _, targetIS := range oldISs] of [selectMachineForUpdate]. *)
Fixpoint selectFrom (w : World) (totalReadyForUpdateCount : Z) (oldISs : list MachineSet)
    (totalReadyForUpdate : Z) : World * Outcome (Result Z) :=
  match oldISs with
  | [] => (w, Done (totalReadyForUpdate, None))
  | targetIS :: oldISs' =>
      if bool_decide (totalReadyForUpdate >= totalReadyForUpdateCount) then
        (* No further updating required. *)
        (w, Done (totalReadyForUpdate, None))
      else if bool_decide (isReplicas targetIS = 0) then
        (* cannot pick this ReplicaSet. *)
        selectFrom w totalReadyForUpdateCount oldISs' totalReadyForUpdate
      else
        (* prepare for update *)
        let newReplicasCount :=
          newReplicasCount targetIS totalReadyForUpdateCount totalReadyForUpdate in
        if bool_decide (newReplicasCount > isReplicas targetIS) then
          (w, Done (0, Some (InvalidRequest (isName targetIS) (isReplicas targetIS)
                               newReplicasCount)))
        else
          match labelMachinesToSelectedForUpdate w targetIS newReplicasCount with
          | (w1, Panicked) => (w1, Panicked)
          | (w1, Done (machinesSelectedForUpdate, Some err)) =>
              (w1, Done (Int32.add totalReadyForUpdate machinesSelectedForUpdate, Some err))
          | (w1, Done (machinesSelectedForUpdate, None)) =>
              selectFrom w1 totalReadyForUpdateCount oldISs'
                (Int32.add totalReadyForUpdate machinesSelectedForUpdate)
          end
  end.

(** The locals [minAvailable] and [availableMachineCount] of
    [selectMachineForUpdate]. *)
Definition minAvailable (deployment : MachineDeployment) : Z :=
  Int32.sub (dReplicas deployment) (MaxUnavailable c deployment).

Definition availableMachineCount (allISs : list MachineSet)
    (oldISsMachinesUndergoingUpdate : Z) : Z :=
  Int32.sub (GetAvailableReplicaCountForMachineSets allISs) oldISsMachinesUndergoingUpdate.

Definition selectMachineForUpdate (w : World) (allISs oldISs : list MachineSet)
    (deployment : MachineDeployment) (oldISsMachinesUndergoingUpdate : Z)
  : World * Outcome (Result Z) :=
  (* Check if we can pick machines from old ISes for updating to new IS. *)
  let minAvailable := minAvailable deployment in
  (* Find the number of available machines. *)
  let availableMachineCount := availableMachineCount allISs oldISsMachinesUndergoingUpdate in
  if bool_decide (availableMachineCount <= minAvailable) then
    (* Cannot pick for updating. *)
    (w, Done (0, None))
  else
    let oldISs := sortByCreationTimestamp oldISs in
    let totalReadyForUpdate := 0 in
    let totalReadyForUpdateCount := Int32.sub availableMachineCount minAvailable in
    selectFrom w totalReadyForUpdateCount oldISs totalReadyForUpdate.

(** The local [maxUpdatePossible] of [reconcileOldMachineSetsInPlace]. *)
Definition maxUpdatePossible (allISs : list MachineSet) (newIS : MachineSet)
    (deployment : MachineDeployment) (oldISsMachinesUndergoingUpdate : Z) : Z :=
  let allMachinesCount := GetReplicaCountForMachineSets allISs in
  let minAvailable := minAvailable deployment in
  let newISUnavailableMachineCount := Int32.sub (isReplicas newIS) (isAvailableReplicas newIS) in
  Int32.sub (Int32.sub (Int32.sub allMachinesCount minAvailable) newISUnavailableMachineCount)
            oldISsMachinesUndergoingUpdate.

Definition reconcileOldMachineSetsInPlace (w : World) (allISs oldISs : list MachineSet)
    (newIS : MachineSet) (deployment : MachineDeployment) : World * Outcome (Result bool) :=
  let oldMachinesCount := GetReplicaCountForMachineSets oldISs in
  if bool_decide (oldMachinesCount = 0) then
    (* Can't scale down further *)
    (w, Done (false, None))
  else
    let '(w1, (oldISsMachinesUndergoingUpdate, err)) := getMachinesUndergoingUpdate w oldISs in
    match err with
    | Some err => (w1, Done (false, Some err))
    | None =>
        let maxUpdatePossible :=
          maxUpdatePossible allISs newIS deployment oldISsMachinesUndergoingUpdate in
        if bool_decide (maxUpdatePossible <= 0) then (w1, Done (false, None))
        else
          match selectMachineForUpdate w1 allISs oldISs deployment
                  oldISsMachinesUndergoingUpdate with
          | (w2, Panicked) => (w2, Panicked)
          | (w2, Done (_, Some err)) => (w2, Done (false, Some err))
          | (w2, Done (machinesSelectedForUpdate, None)) =>
              (w2, Done (bool_decide (machinesSelectedForUpdate > 0), None))
          end
    end.

(** *** Labelling candidates *)

(** The body of [for _, machine := range filteredMachines] of
    [labelNodesBackingMachineSets]. *)
Fixpoint labelCandidates (w : World) (filteredMachines : list Machine)
  : World * Flow unit (option Error) :=
  match filteredMachines with
  | [] => (w, Next ())
  | machine :: machines' =>
      if bool_decide (labelValue (mLabels machine) NodeLabelKey ≠ "") then
        let labels :=
          MergeStringMaps (mLabels machine) {[ LabelKeyMachineCandidateForUpdate := "true" ]} in
        let '(w1, err) :=
          machineControl_PatchMachine c w (mNamespace machine) (mName machine)
            (LabelsPatch labels) in
        match err with
        | Some err => (w1, Return (Some err))
        | None =>
            match nodeLister_Get c w1 (labelValue (mLabels machine) NodeLabelKey) with
            | (w2, inl err) =>
                if IsNotFound err then
                  (* Node is not found, continue to the next machine *)
                  labelCandidates w2 machines'
                else (w2, Return (Some err))
            | (w2, inr node) =>
                if bool_decide
                     (labelValue (nLabels node) LabelKeyMachineCandidateForUpdate = "true")
                then labelCandidates w2 machines'
                else
                  let nodeCopy := withNodeLabel node LabelKeyMachineCandidateForUpdate "true" in
                  let '(w3, err) := invoke c w2 (TargetNodeUpdate nodeCopy) in
                  match err with
                  | Some err => (w3, Return (Some err))
                  | None => labelCandidates w3 machines'
                  end
            end
        end
      else labelCandidates w machines'
  end.

(** [labelNodesBackingMachineSets]; a [nil] machine set is [None].  The
    [label] argument is only logged: the label set is always
    candidate-for-update. *)
Fixpoint labelNodesBackingMachineSets (w : World) (machineSets : list (option MachineSet))
    (label : Labels) : World * option Error :=
  match machineSets with
  | [] => (w, None)
  | None :: machineSets' => labelNodesBackingMachineSets w machineSets' label
  | Some machineSet :: machineSets' =>
      let '(w1, (filteredMachines, err)) := machineLister_List c w (isSelector machineSet) in
      match err with
      | Some err => (w1, Some err)
      | None =>
          match labelCandidates w1 filteredMachines with
          | (w2, Return err) => (w2, err)
          | (w2, Next _) => labelNodesBackingMachineSets w2 machineSets' label
          end
      end
  end.

(** *** Machines whose nodes were marked for update (manual variant) *)

(** The body of [for _, machine := range machines] of
    [getAndLabelMachinesSelectedForUpdate]. *)
Fixpoint labelMarked (w : World) (machines : list Machine) (isMachineSelectedForUpdate : bool)
  : World * Flow bool (Result bool) :=
  match machines with
  | [] => (w, Next isMachineSelectedForUpdate)
  | machine :: machines' =>
      if bool_decide (labelValue (mLabels machine) NodeLabelKey ≠ "") then
        match targetNodes_Get c w (labelValue (mLabels machine) NodeLabelKey) with
        | (w1, inl _) =>
            (* Cannot get node: logged, on to the next machine *)
            labelMarked w1 machines' isMachineSelectedForUpdate
        | (w1, inr node) =>
            (* If the node is not marked for update, do not process the node. *)
            if bool_decide (nLabels node !! LabelKeyMachineSelectedForUpdate = None) then
              labelMarked w1 machines' isMachineSelectedForUpdate
            else
              let labels :=
                MergeStringMaps (mLabels machine)
                  {[ LabelKeyMachineSelectedForUpdate := "true" ]} in
              let '(w2, err) :=
                machineControl_PatchMachine c w1 (mNamespace machine) (mName machine)
                  (LabelsPatch labels) in
              match err with
              | Some err => (w2, Return (false, Some err))
              | None => labelMarked w2 machines' true
              end
        end
      else labelMarked w machines' isMachineSelectedForUpdate
  end.

Definition getAndLabelMachinesSelectedForUpdate_loop :=
  fix go (w : World) (iSs : list MachineSet) (isMachineSelectedForUpdate : bool)
    : World * Result bool :=
    match iSs with
    | [] => (w, (isMachineSelectedForUpdate, None))
    | ms :: iSs' =>
        if bool_decide (isReplicas ms = 0) then
          (* cannot pick this ReplicaSet. *)
          go w iSs' isMachineSelectedForUpdate
        else
          let '(w1, (machines, err)) := machineLister_List c w (isSelector ms) in
          match err with
          | Some err => (w1, (false, Some err))
          | None =>
              match labelMarked w1 machines isMachineSelectedForUpdate with
              | (w2, Return r) => (w2, r)
              | (w2, Next isMachineSelectedForUpdate) => go w2 iSs' isMachineSelectedForUpdate
              end
          end
    end.

Definition getAndLabelMachinesSelectedForUpdate (w : World) (iSs : list MachineSet)
  : World * Result bool :=
  getAndLabelMachinesSelectedForUpdate_loop w iSs false.

(** *** The orchestrators *)

(** The collaborators of the rollout that are not part of this core: each
    is a call that may fail. *)
Definition getAllMachineSetsAndSyncRevision (w : World) (d : MachineDeployment)
    (isList : list MachineSet) : World * (Error + MachineSet * list MachineSet) :=
  let '(w', r) := call c w (GetAllMachineSetsAndSyncRevision (dName d)) in
  match r with
  | Some e => (w', inl (Remote e))
  | None => (w', inr (revisions c (trace w) d isList))
  end.

Definition taintNodesBackingMachineSets (w : World) (machineSets : list MachineSet) (key : string)
  : World * option Error :=
  invoke c w (TaintNodesBackingMachineSets (isName <$> machineSets) key).

Definition annotateNodesBackingMachineSets (w : World) (machineSets : list MachineSet)
  : World * option Error :=
  invoke c w (AnnotateNodesBackingMachineSets (isName <$> machineSets)).

Definition labelMachineSets (w : World) (machineSets : list MachineSet) (key : string)
  : World * option Error :=
  invoke c w (LabelMachineSets (isName <$> machineSets) key).

Definition syncMachineSets (w : World) (d : MachineDeployment) : World * option Error :=
  invoke c w (SyncMachineSets (dName d)).

Definition syncRolloutStatus (w : World) (allISs : list MachineSet) (newIS : MachineSet)
    (d : MachineDeployment) : World * option Error :=
  invoke c w (SyncRolloutStatus (dName d)).

Definition removeAutoscalerAnnotationsIfRequired (w : World) (allISs : list MachineSet)
  : World * option Error :=
  invoke c w (RemoveAutoscalerAnnotationsIfRequired (isName <$> allISs)).

Definition cleanupMachineDeployment (w : World) (oldISs : list MachineSet) (d : MachineDeployment)
  : World * option Error :=
  invoke c w (CleanupMachineDeployment (dName d)).

(** The last steps of both orchestrators: clean up when the deployment is
    complete, then sync the deployment status. *)
Definition completeAndSync (w : World) (allISs oldISs : list MachineSet) (newIS : MachineSet)
    (d : MachineDeployment) : World * option Error :=
  if MachineDeploymentComplete c (trace w) d then
    let '(w1, err) :=
      if autoscalerScaleDownAnnotationDuringRollout c
      then removeAutoscalerAnnotationsIfRequired w allISs
      else (w, None) in
    match err with
    | Some err => (w1, Some err)
    | None =>
        let '(w2, err) := cleanupMachineDeployment w1 oldISs d in
        match err with
        | Some err => (w2, Some err)
        | None => syncRolloutStatus w2 allISs newIS d
        end
    end
  else syncRolloutStatus w allISs newIS d.

(** [rolloutAutoInPlace] up to the labelling of the candidates: the machine
    sets it goes on with, or the error it returns. *)
Definition prepareAutoInPlace (w : World) (d : MachineDeployment) (isList : list MachineSet)
  : World * Flow (MachineSet * list MachineSet) (option Error) :=
  match getAllMachineSetsAndSyncRevision w d isList with
  | (w1, inl err) => (w1, Return (Some err))
  | (w1, inr (newIS, oldISs)) =>
      let allISs := oldISs ++ [newIS] in
      (* a failure to taint is only logged *)
      let '(w2, _) := taintNodesBackingMachineSets w1 oldISs PreferNoScheduleKey in
      let '(w3, err) :=
        if autoscalerScaleDownAnnotationDuringRollout c
           && bool_decide (0 < length oldISs)%nat && negb (machineSetsScaledToZero oldISs)
        then annotateNodesBackingMachineSets w2 allISs
        else (w2, None) in
      match err with
      | Some err => (w3, Return (Some err))
      | None =>
          (* label all the machines and nodes backing the old machine sets as
             candidate for update *)
          let '(w4, err) :=
            labelNodesBackingMachineSets w3 (Some <$> oldISs)
              {[ LabelKeyMachineCandidateForUpdate := "true" ]} in
          match err with
          | Some err => (w4, Return (Some (CandidateLabelFailed err)))
          | None => (w4, Next (newIS, oldISs))
          end
      end
  end.

Definition rolloutAutoInPlace (w : World) (d : MachineDeployment) (isList : list MachineSet)
  : World * Outcome (option Error) :=
  match prepareAutoInPlace w d isList with
  | (w1, Return err) => (w1, Done err)
  | (w1, Next (newIS, oldISs)) =>
      let allISs := oldISs ++ [newIS] in
      let '(w2, (scaledUp, err)) := reconcileNewMachineSetInPlace w1 oldISs newIS d in
      match err with
      | Some err => (w2, Done (Some err))
      | None =>
          if scaledUp then
            (* Update DeploymentStatus *)
            let '(w3, err) := syncRolloutStatus w2 allISs newIS d in (w3, Done err)
          else
            (* prepare old ISs for update *)
            match reconcileOldMachineSetsInPlace w2 allISs (FilterActiveMachineSets c oldISs)
                    newIS d with
            | (w3, Panicked) => (w3, Panicked)
            | (w3, Done (_, Some err)) => (w3, Done (Some err))
            | (w3, Done (machinesSelectedForUpdate, None)) =>
                if machinesSelectedForUpdate then
                  (* Update DeploymentStatus *)
                  let '(w4, err) := syncRolloutStatus w3 allISs newIS d in (w4, Done err)
                else
                  let '(w4, err) := completeAndSync w3 allISs oldISs newIS d in (w4, Done err)
            end
      end
  end.

(** [rolloutManualInPlace] up to the sync of the machine sets. *)
Definition prepareManualInPlace (w : World) (d : MachineDeployment) (isList : list MachineSet)
  : World * Flow (MachineSet * list MachineSet) (option Error) :=
  match getAllMachineSetsAndSyncRevision w d isList with
  | (w1, inl err) => (w1, Return (Some err))
  | (w1, inr (newIS, oldISs)) =>
      let allISs := oldISs ++ [newIS] in
      (* a failure to taint is only logged *)
      let '(w2, _) := taintNodesBackingMachineSets w1 oldISs PreferNoScheduleKey in
      let rolling := bool_decide (0 < length oldISs)%nat && negb (machineSetsScaledToZero oldISs) in
      let '(w3, err) :=
        if rolling
        then labelMachineSets w2 oldISs LabelKeyMachineSetSkipUpdate
        else (w2, None) in
      match err with
      | Some err => (w3, Return (Some err))
      | None =>
          let '(w4, err) :=
            if autoscalerScaleDownAnnotationDuringRollout c && rolling
            then annotateNodesBackingMachineSets w3 allISs
            else (w3, None) in
          match err with
          | Some err => (w4, Return (Some err))
          | None =>
              let '(w5, err) := syncMachineSets w4 d in
              match err with
              | Some err => (w5, Return (Some (SyncMachineSetsFailed err)))
              | None => (w5, Next (newIS, oldISs))
              end
          end
      end
  end.

Definition rolloutManualInPlace (w : World) (d : MachineDeployment) (isList : list MachineSet)
  : World * option Error :=
  match prepareManualInPlace w d isList with
  | (w1, Return err) => (w1, err)
  | (w1, Next (newIS, oldISs)) =>
      let allISs := oldISs ++ [newIS] in
      let '(w2, (scaledUp, err)) := reconcileNewMachineSetInPlace w1 oldISs newIS d in
      match err with
      | Some err => (w2, Some err)
      | None =>
          if scaledUp then
            (* Update DeploymentStatus *)
            syncRolloutStatus w2 allISs newIS d
          else
            (* an error of the labelling is only logged *)
            let '(w3, (machinesSelectedForUpdate, _)) :=
              getAndLabelMachinesSelectedForUpdate w2 oldISs in
            if machinesSelectedForUpdate then
              (* Update DeploymentStatus *)
              syncRolloutStatus w3 allISs newIS d
            else completeAndSync w3 allISs oldISs newIS d
      end
  end.

End Controller.

Global Arguments call : simpl never.
Global Arguments invoke : simpl never.
Global Arguments machineLister_List : simpl never.
Global Arguments nodeLister_List : simpl never.
Global Arguments nodeLister_Get : simpl never.
Global Arguments targetNodes_Get : simpl never.
Global Arguments machineControl_PatchMachine : simpl never.
Global Arguments scaleMachineSetAndRecordEvent : simpl never.
Global Arguments getMachinesForDrain : simpl never.
Global Arguments labelMachinesToSelectedForUpdate : simpl never.
Global Arguments getMachineFromNode : simpl never.
Global Arguments MergeStringMaps : simpl never.
Global Arguments MergeWithOverwriteAndFilter : simpl never.

(** ** Reading traces *)

(** [performed w w' evs]: going from [w] to [w'] made the calls [evs], the
    latest first. *)
Definition performed (w w' : World) (evs : list Entry) : Prop :=
  trace w' = evs ++ trace w.

(** Calls that patch a machine, and calls that scale a machine set. *)
Definition isPatch (e : Entry) : bool :=
  match e.1 with
  | PatchMachine _ _ _ => true
  | _ => false
  end.

Definition isScale (e : Entry) : bool :=
  match e.1 with
  | MachineSetUpdate _ _ => true
  | _ => false
  end.

(** A machine patch that went through. *)
Definition isPatched (e : Entry) : bool :=
  match e with
  | (PatchMachine _ _ _, None) => true
  | _ => false
  end.

(** The number of machine patches that went through among the calls of a
    trace: the machines newly labelled, or newly owned. *)
Definition patched (evs : list Entry) : Z :=
  Z.of_nat (length (filter (λ e, isPatched e = true) evs)).

(** The calls of the selection: a listing of machines, or a patch that
    sets selected-for-update. *)
Definition selectionCall (e : Entry) : Prop :=
  match e.1 with
  | MachineList _ => True
  | PatchMachine _ _ (LabelsPatch labels) =>
      labels !! LabelKeyMachineSelectedForUpdate = Some "true"
  | _ => False
  end.

(** The calls of the ownership transfer. *)
Definition transferCall (e : Entry) : Prop :=
  match e.1 with
  | MachineList _ | NodeList _ | ControlNodeUpdate _ | MachineSetUpdate _ _ => True
  | PatchMachine _ _ (OwnerPatch _ _ _ _ _) => True
  | _ => False
  end.

(** No machine patch among the calls failed. *)
Definition patchesOk (evs : list Entry) : Prop :=
  Forall (λ e, isPatch e = true → e.2 = None) evs.

(** The sum of a list of integers. *)
Definition total (ks : list Z) : Z := foldr Z.add 0 ks.

(** What [reconcileNewMachineSetInPlace] does after a machine patch failed
    with [e], when [added] machines were added to the new machine set and
    [transferred] of them came from the machine set [ms]: it scales the new
    machine set up by [added] and then [ms] down by [transferred].  [after]
    are the calls made, the latest first, and [r] is what is returned. *)
Definition compensated (newIS ms : MachineSet) (added transferred : Z) (e : RemoteError)
    (after : list Entry) (r : Result bool) : Prop :=
  let up := MachineSetUpdate (isName newIS) (Int32.add (isReplicas newIS) added) in
  let down := MachineSetUpdate (isName ms) (Int32.sub (isReplicas ms) transferred) in
  (∃ e2, after = [(up, Some e2)] ∧ r = (bool_decide (0 < added), Some (Remote e2)))
  ∨ (∃ e3, after = [(down, Some e3); (up, None)] ∧
           r = (bool_decide (0 < added), Some (Remote e)))
  ∨ (after = [(down, None); (up, None)] ∧
     r = (bool_decide (isReplicas newIS ≠ Int32.add (isReplicas newIS) added), Some (Remote e))).

(** The replica counts written when [ks] machines were moved out of the
    old machine sets, one count for each. *)
Fixpoint scaledDown (oldISs : list MachineSet) (ks : list Z) (m : gmap string Z)
  : gmap string Z :=
  match oldISs, ks with
  | ms :: oldISs', k :: ks' =>
      scaledDown oldISs' ks' (<[isName ms := Int32.sub (isReplicas ms) k]> m)
  | _, _ => m
  end.

(** A call of the loop over the nodes that went through, for an old
    machine set whose machines are [machines]: the ownership patch of one
    of these machines, or the update of a node. *)
Definition movesOneOf (machines : list Machine) (e : Entry) : Prop :=
  e.2 = None ∧
  match e.1 with
  | PatchMachine namespace name (OwnerPatch _ _ _ _ uid) =>
      ∃ machine, machine ∈ machines ∧ namespace = mNamespace machine ∧
                 name = mName machine ∧ uid = mUID machine
  | ControlNodeUpdate _ => True
  | _ => False
  end.

(** [transferredOut c tr oldISs moved tr']: starting from the trace [tr],
    the loop over the old machine sets went through and left the trace
    [tr'].  For each old machine set in turn it listed the machines of its
    selector and the updated nodes, patched machines of that listing only,
    and then scaled this machine set down by the number of these patches;
    [moved] holds that number for each old machine set, in their order. *)
Inductive transferredOut (c : Cluster)
  : list Entry → list MachineSet → list Z → list Entry → Prop :=
| transferredOut_nil tr : transferredOut c tr [] [] tr
| transferredOut_cons tr ms oldISs calls moved tr' :
    Forall (movesOneOf (filter (λ m, selects (isSelector ms) (mLabels m))
                          (machineCache c tr))) calls →
    transferredOut c
      ((MachineSetUpdate (isName ms) (Int32.sub (isReplicas ms) (patched calls)), None)
         :: calls ++ [(NodeList {[ LabelKeyMachineUpdateSuccessful := "true" ]}, None);
                      (MachineList (isSelector ms), None)] ++ tr)
      oldISs moved tr' →
    transferredOut c tr (ms :: oldISs) (patched calls :: moved) tr'.

(** What a run of the loop over the nodes of the machine set [ms] leaves
    behind, when entered with the counters [t] and [a]. *)
Definition nodesTransferred (newIS ms : MachineSet) (w w' : World) (t a : Z)
    (evs : list Entry) (fl : Flow (Z * Z) (Result bool)) : Prop :=
  match fl with
  | Next (t', a') =>
      scaledTo w' = scaledTo w ∧ patchesOk evs ∧
      t' = Int32.wrap (t + patched evs) ∧ a' = Int32.wrap (a + patched evs)
  | Return r =>
      (patchesOk evs ∧ is_Some r.2) ∨
      ∃ before after namespace name patch e,
        evs = after ++ (PatchMachine namespace name patch, Some e) :: before ∧
        patchesOk before ∧
        compensated newIS ms (Int32.wrap (a + patched before))
          (Int32.wrap (t + patched before)) e after r
  end.

(** What a run of the loop over the old machine sets leaves behind, when
    entered with the counter [a]. *)
Definition setsTransferred (newIS : MachineSet) (oldISs : list MachineSet) (w w' : World)
    (a : Z) (evs : list Entry) (fl : Flow Z (Result bool)) : Prop :=
  match fl with
  | Next a' =>
      patchesOk evs ∧
      ∃ ks, length ks = length oldISs ∧ Forall (λ k, 0 <= k) ks ∧ patched evs = total ks ∧
            a' = Int32.wrap (a + total ks) ∧
            scaledTo w' = scaledDown oldISs ks (scaledTo w)
  | Return r =>
      is_Some r.2 ∧
      (patchesOk evs ∨
       ∃ ms before after namespace name patch e k,
         ms ∈ oldISs ∧
         evs = after ++ (PatchMachine namespace name patch, Some e) :: before ∧
         patchesOk before ∧ 0 <= k <= patched before ∧
         compensated newIS ms (Int32.wrap (a + patched before)) (Int32.wrap k) e after r)
  end.

(** The only calls of the cluster that fail are node lookups, and they
    fail with not-found. *)
Definition onlyNodesNotFound (c : Cluster) : Prop :=
  ∀ tr k e, fault c tr k = Some e →
    ∃ name, (k = NodeGet name ∨ k = TargetNodeGet name) ∧ e = NotFound name.

(** An error handed on from a remote call, or none. *)
Definition remoteOnly (err : option Error) : Prop :=
  match err with
  | None | Some (Remote _) => True
  | _ => False
  end.

(** What a run of the selection loop over [oldISs] returns, when it was
    entered with [total] machines selected and made the calls [evs]: the
    invalid-request error comes with a count of zero and from a generation
    of negative size, and every other return counts the machines patched. *)
Definition selectionOutcome (oldISs : list MachineSet) (total : Z) (evs : list Entry)
    (o : Outcome (Result Z)) : Prop :=
  match o with
  | Panicked => False
  | Done (n, Some (InvalidRequest name oldCount newCount)) =>
      n = 0 ∧ ∃ ms, ms ∈ oldISs ∧ name = isName ms ∧ oldCount = isReplicas ms ∧
                    isReplicas ms < 0 ∧ newCount > oldCount
  | Done (n, _) => n = total + patched evs
  end.

(** ** The selection as the specification words it

    Oldest generation first; a generation of size zero is skipped; of the
    others [min(generationReplicas, remainingBudget)] machines are to be
    selected, which leaves [generationReplicas - readyForUpdateCount]; a
    new count that exceeds the old one is a fatal error; the selection
    stops once the budget is reached.  Counts are integers, and [label]
    labels the machines of a generation down to a target. *)
Section SelectionSpec.
Context (label : World → MachineSet → Z → World * Outcome (Result Z)).

Fixpoint spec_select (w : World) (budget : Z) (generations : list MachineSet) (total : Z)
  : World * Outcome (Result Z) :=
  match generations with
  | [] => (w, Done (total, None))
  | generation :: generations' =>
      if bool_decide (budget <= total) then (w, Done (total, None))
      else if bool_decide (isReplicas generation = 0) then
        spec_select w budget generations' total
      else
        let remainingBudget := budget - total in
        let readyForUpdateCount := Z.min (isReplicas generation) remainingBudget in
        let notYetSelected := isReplicas generation - readyForUpdateCount in
        if bool_decide (notYetSelected > isReplicas generation) then
          (w, Done (0, Some (InvalidRequest (isName generation) (isReplicas generation)
                               notYetSelected)))
        else
          match label w generation notYetSelected with
          | (w1, Panicked) => (w1, Panicked)
          | (w1, Done (n, Some err)) => (w1, Done (total + n, Some err))
          | (w1, Done (n, None)) => spec_select w1 budget generations' (total + n)
          end
  end.

End SelectionSpec.

(** ** Example clusters *)

Module Examples.

(** A cluster whose caches never change and whose calls fail as [faults] says. *)
Definition still (machines : list Machine) (nodes : list Node)
    (faults : list Entry → Call → option RemoteError) : Cluster :=
  {| machineCache := λ _, machines;
     nodeCache := λ _, nodes;
     targetNodes := λ _, nodes;
     fault := faults;
     revisions := λ _ _ isList,
       match isList with
       | newIS :: oldISs => (newIS, oldISs)
       | [] => ({| isName := "new"; isUID := "0"; isCreationTimestamp := 0;
                   isSelector := ∅; isReplicas := 0; isAvailableReplicas := 0 |}, [])
       end;
     MaxUnavailable := λ _, 1;
     FilterActiveMachineSets := filter (λ ms, 0 < isReplicas ms);
     MachineDeploymentComplete := λ _ _, false;
     autoscalerScaleDownAnnotationDuringRollout := false |}.

(** What the machine cache shows after a call: a patch of labels that
    went through has replaced the labels of the machine it names. *)
Definition relabelled (e : Entry) (machines : list Machine) : list Machine :=
  match e with
  | (PatchMachine namespace name (LabelsPatch labels), None) =>
      (λ m, if bool_decide (mNamespace m = namespace ∧ mName m = name)
            then {| mName := mName m; mNamespace := mNamespace m; mUID := mUID m;
                    mLabels := labels |}
            else m) <$> machines
  | _ => machines
  end.

(** A cluster like [still], except that its machine cache follows the
    label patches of the trace. *)
Definition reflecting (machines : list Machine) (nodes : list Node)
    (faults : list Entry → Call → option RemoteError) : Cluster :=
  {| machineCache := λ tr, foldr relabelled machines tr;
     nodeCache := nodeCache (still machines nodes faults);
     targetNodes := targetNodes (still machines nodes faults);
     fault := faults;
     revisions := revisions (still machines nodes faults);
     MaxUnavailable := MaxUnavailable (still machines nodes faults);
     FilterActiveMachineSets := FilterActiveMachineSets (still machines nodes faults);
     MachineDeploymentComplete := MachineDeploymentComplete (still machines nodes faults);
     autoscalerScaleDownAnnotationDuringRollout := false |}.

Definition noFaults : list Entry → Call → option RemoteError := λ _ _, None.

Definition start : World := {| trace := []; scaledTo := ∅ |}.

Definition machine (name node : string) (labels : Labels) : Machine :=
  {| mName := name; mNamespace := "shoot"; mUID := name;
     mLabels := <[NodeLabelKey := node]> labels |}.

Definition generation (name : string) (created : Z) (selector : Labels) (replicas available : Z)
  : MachineSet :=
  {| isName := name; isUID := name; isCreationTimestamp := created;
     isSelector := selector; isReplicas := replicas; isAvailableReplicas := available |}.

(** A generation whose selector asks for candidate-for-update = "false",
    and a machine that is a candidate. *)
Definition oddGeneration : MachineSet :=
  generation "odd" 1 {[ LabelKeyMachineCandidateForUpdate := "false" ]} 1 1.

Definition candidate : Machine :=
  machine "m0" "n0" {[ LabelKeyMachineCandidateForUpdate := "true" ]}.

(** The deployment of the scenarios: five replicas, of which one may be
    unavailable ([MaxUnavailable] of [still] is 1). *)
Definition deployment : MachineDeployment := {| dName := "workers"; dReplicas := 5 |}.

Definition oldSelector : Labels := {[ "generation" := "1" ]}.
Definition newSelector : Labels := {[ "generation" := "2" ]}.

(** An old generation at 5 of 5 available and the new one at 0 of 5. *)
Definition oldIS : MachineSet := generation "old" 1 oldSelector 5 5.
Definition newIS : MachineSet := generation "new" 2 newSelector 0 0.

(** Machines of the old generation; all are candidates. *)
Definition worker (name node : string) : Machine :=
  machine name node (<[LabelKeyMachineCandidateForUpdate := "true"]> oldSelector).

Definition workers : list Machine :=
  [worker "m1" "n1"; worker "m2" "n2"; worker "m3" "n3"; worker "m4" "n4"; worker "m5" "n5"].

Definition node (name : string) (labels : Labels) : Node :=
  {| nName := name; nLabels := labels; nUnschedulable := true |}.

(** An old generation of one machine, and a younger one whose replica count
    is negative; with the new generation at 5 available the budget is 2. *)
Definition smallIS : MachineSet := generation "small" 1 oldSelector 1 1.
Definition brokenIS : MachineSet := generation "broken" 2 {[ "generation" := "0" ]} (-1) 0.
Definition fullIS : MachineSet := generation "new" 3 newSelector 5 5.

(** A second old generation of one machine, younger than [smallIS], and
    its machine, a candidate. *)
Definition nextIS : MachineSet := generation "next" 2 {[ "generation" := "3" ]} 1 1.

Definition nextWorker : Machine :=
  machine "m6" "n6" (<[LabelKeyMachineCandidateForUpdate := "true"]> {[ "generation" := "3" ]}).

(** Nodes of the workers; those of [updated] carry update-successful. *)
Definition updatedNode (name : string) : Node :=
  node name {[ LabelKeyMachineUpdateSuccessful := "true" ]}.

(** The patch of the machine "m2" fails, and so does every scaling of the
    new machine set. *)
Definition transferFaults : list Entry → Call → option RemoteError :=
  λ _ k,
    match k with
    | PatchMachine _ name _ =>
        if bool_decide (name = "m2") then Some (ServerError "patch refused") else None
    | MachineSetUpdate name _ =>
        if bool_decide (name = "new") then Some (ServerError "scale refused") else None
    | _ => None
    end.

(** The patch of the machine "m2" fails, and so does every scaling of the
    old machine set. *)
Definition scaleDownFaults : list Entry → Call → option RemoteError :=
  λ _ k,
    match k with
    | PatchMachine _ name _ =>
        if bool_decide (name = "m2") then Some (ServerError "patch refused") else None
    | MachineSetUpdate name _ =>
        if bool_decide (name = "old") then Some (ServerError "scale refused") else None
    | _ => None
    end.

(** The patch of the machine [name] fails. *)
Definition refusePatch (name : string) : list Entry → Call → option RemoteError :=
  λ _ k,
    match k with
    | PatchMachine _ name' _ =>
        if bool_decide (name' = name) then Some (ServerError "patch refused") else None
    | _ => None
    end.

(** The ownership patch of the machine [name] fails. *)
Definition refuseTransfer (name : string) : list Entry → Call → option RemoteError :=
  λ _ k,
    match k with
    | PatchMachine _ name' (OwnerPatch _ _ _ _ _) =>
        if bool_decide (name' = name) then Some (ServerError "patch refused") else None
    | _ => None
    end.

(** An old generation at 4 of 4 available, the new one at 1 of which none
    is available yet. *)
Definition oldIS4 : MachineSet := generation "old" 1 oldSelector 4 4.
Definition newIS1 : MachineSet := generation "new" 2 newSelector 1 0.

End Examples.

(** ** More ways to read traces *)

(** The machines of a generation that may be drained, as the machine cache
    holds them after the calls [tr]: the candidates for update among its
    machines that do not carry selected-for-update, in the order of the
    lister. *)
Definition drainable (c : Cluster) (tr : list Entry) (ms : MachineSet) : list Machine :=
  filter (λ m, mLabels m !! LabelKeyMachineSelectedForUpdate = None)
    (filter (λ m, selects (MergeStringMaps (isSelector ms)
                             {[ LabelKeyMachineCandidateForUpdate := "true" ]}) (mLabels m))
       (machineCache c tr)).

(** A listing of machines, or a patch with the labels of a candidate for
    update that is now selected for update. *)
Definition candidateSelected (e : Entry) : Prop :=
  match e.1 with
  | MachineList _ => True
  | PatchMachine _ _ (LabelsPatch labels) =>
      labels !! LabelKeyMachineCandidateForUpdate = Some "true" ∧
      labels !! LabelKeyMachineSelectedForUpdate = Some "true"
  | _ => False
  end.

(** A listing of the machines that carry selected-for-update = "true". *)
Definition selectedListing (e : Entry) : Prop :=
  match e.1 with
  | MachineList selector => selector !! LabelKeyMachineSelectedForUpdate = Some "true"
  | _ => False
  end.

(** No call of the cluster fails. *)
Definition noFailures (c : Cluster) : Prop := ∀ tr k, fault c tr k = None.

(** Every call but the latest went through: the calls stopped at the first
    failure. *)
Definition failsLast (evs : list Entry) : Prop :=
  Forall (λ e, e.2 = None) (tail evs).

(** The error returned is none when every call went through, and else the
    error of the latest call, handed on as it is. *)
Definition handsOn (evs : list Entry) (err : option Error) : Prop :=
  match err with
  | None => Forall (λ e, e.2 = None) evs
  | Some e => ∃ k r, head evs = Some (k, Some r) ∧ e = Remote r
  end.

(** What the calls and the result of a selection have to do with each
    other: the invalid-request error is the selection's own and comes after
    calls that all went through; every other error is the error of the
    latest call. *)
Definition selectionErrors (evs : list Entry) (o : Outcome (Result Z)) : Prop :=
  match o with
  | Panicked => True
  | Done (_, Some (InvalidRequest _ _ _)) => Forall (λ e, e.2 = None) evs
  | Done (_, err) => handsOn evs err
  end.

(** Every old machine set has, when the selection loop with the budget
    [cap] comes to it, at least as many drainable machines as replicas:
    the cache is read after the calls made for the machine sets before
    it. *)
Definition enoughDrainable (c : Cluster) (w : World) (cap : Z)
    (oldISs : list MachineSet) : Prop :=
  ∀ before ms after, oldISs = before ++ ms :: after →
    isReplicas ms <=
    Z.of_nat (length (drainable c (trace (selectFrom c w cap before 0).1) ms)).

(** A call that updates a node of the control cluster. *)
Definition isUncordon (e : Entry) : bool :=
  match e.1 with
  | ControlNodeUpdate _ => true
  | _ => false
  end.

(** The number of such calls. *)
Definition uncordons (evs : list Entry) : Z :=
  Z.of_nat (length (filter (λ e, isUncordon e = true) evs)).

(** What the calls of the ownership transfer carry: a machine patch names
    the new machine set as owner, by name and UID and under the kind that
    the format verb prints for the group, version and kind of machine
    sets, and keeps update-successful; a node update clears the
    unschedulable flag. *)
Definition movesTo (newIS : MachineSet) (e : Entry) : Prop :=
  match e.1 with
  | MachineList _ | NodeList _ | MachineSetUpdate _ _ => True
  | PatchMachine _ _ (OwnerPatch kind name uid labels _) =>
      kind = "machine.sapcloud.io/v1alpha1, Kind=MachineSet" ∧
      name = isName newIS ∧ uid = isUID newIS ∧
      labels !! LabelKeyMachineUpdateSuccessful = Some "true"
  | ControlNodeUpdate n => nUnschedulable n = false
  | _ => False
  end.

(** The scalings of the ownership transfer, when at most [bound] machines
    were moved: the new machine set is scaled up by a number of machines
    moved, or down to the replicas of the deployment when it is above
    them; an old machine set is scaled down by a number of machines moved. *)
Definition scalesWithin (newIS : MachineSet) (oldISs : list MachineSet)
    (deployment : MachineDeployment) (bound : Z) (e : Entry) : Prop :=
  match e.1 with
  | MachineSetUpdate name replicas =>
      (∃ k, 0 <= k <= bound ∧ name = isName newIS ∧
            replicas = Int32.add (isReplicas newIS) k)
      ∨ (name = isName newIS ∧ replicas = dReplicas deployment ∧
         dReplicas deployment < isReplicas newIS)
      ∨ (∃ ms k, ms ∈ oldISs ∧ 0 <= k <= bound ∧ name = isName ms ∧
                 replicas = Int32.sub (isReplicas ms) k)
  | _ => True
  end.

(** What a run of a loop of the transfer leaves in the trace, when its
    counter of the machines added stood for [a0] machines at the start:
    the counter at the end; or an error, with a flag that is set only
    when a machine was added. *)
Definition movedSoFar {S} (newIS : MachineSet) (count : S → Z) (a0 : Z) (evs : list Entry)
    (fl : Flow S (Result bool)) : Prop :=
  match fl with
  | Next s => count s = Int32.wrap (a0 + patched evs)
  | Return (b, err) =>
      err ≠ None ∧ (b = true → Int32.in_range (isReplicas newIS) → 1 <= a0 + patched evs)
  end.

(** * Properties *)

(** ** Arithmetic of [int32] *)

Module Int32Facts.
Import Int32.

Lemma wrap_in_range z : in_range (wrap z).
Proof.
  unfold in_range, wrap, min_int, max_int, modulus.
  pose proof (Z.mod_pos_bound (z + 2 ^ 31) (2 ^ 32) ltac:(lia)). lia.
Qed.

Lemma wrap_id z : in_range z → wrap z = z.
Proof.
  unfold in_range, wrap, min_int, max_int, modulus. intros Hz.
  rewrite Z.mod_small; lia.
Qed.

Lemma wrap_eqm z : ∃ k, wrap z = z + k * modulus.
Proof.
  exists (- ((z + 2 ^ 31) / modulus)). unfold wrap.
  rewrite Z.mod_eq by (unfold modulus; lia). lia.
Qed.

Lemma wrap_shift z k : wrap (z + k * modulus) = wrap z.
Proof.
  unfold wrap.
  replace (z + k * modulus + 2 ^ 31) with (z + 2 ^ 31 + k * modulus) by lia.
  by rewrite Z.mod_add by (unfold modulus; lia).
Qed.

Lemma wrap_add_l a b : wrap (wrap a + b) = wrap (a + b).
Proof.
  destruct (wrap_eqm a) as [k ->].
  replace (a + k * modulus + b) with (a + b + k * modulus) by lia.
  apply wrap_shift.
Qed.

Lemma wrap_add_r a b : wrap (a + wrap b) = wrap (a + b).
Proof. rewrite (Z.add_comm a), wrap_add_l. f_equal; lia. Qed.

Lemma wrap_sub_l a b : wrap (wrap a - b) = wrap (a - b).
Proof. unfold Z.sub. apply wrap_add_l. Qed.

Lemma wrap_sub_r a b : wrap (a - wrap b) = wrap (a - b).
Proof.
  destruct (wrap_eqm b) as [k ->].
  replace (a - (b + k * modulus)) with (a - b + (- k) * modulus) by lia.
  apply wrap_shift.
Qed.

Lemma add_in_range a b : in_range (add a b).
Proof. apply wrap_in_range. Qed.

Lemma sub_in_range a b : in_range (sub a b).
Proof. apply wrap_in_range. Qed.

Lemma sub_exact a b : in_range (a - b) → sub a b = a - b.
Proof. apply wrap_id. Qed.

Lemma add_exact a b : in_range (a + b) → add a b = a + b.
Proof. apply wrap_id. Qed.

End Int32Facts.

(** ** Label maps *)

Lemma label_keys_distinct :
  LabelKeyMachineCandidateForUpdate ≠ LabelKeyMachineSelectedForUpdate.
Proof. done. Qed.

Lemma MergeStringMaps_lookup_new (oldMap : Labels) k v k' :
  MergeStringMaps oldMap {[ k := v ]} !! k' =
  if decide (k = k') then Some v else oldMap !! k'.
Proof.
  unfold MergeStringMaps. rewrite lookup_union.
  destruct (decide (k = k')) as [->|Hne].
  - rewrite lookup_singleton_eq. by destruct (oldMap !! k').
  - rewrite lookup_singleton_ne by done. by destruct (oldMap !! k').
Qed.

(** What a machine that matches a selector extended by one label has. *)
Lemma selects_merged (sel ls : Labels) k v :
  selects (MergeStringMaps sel {[ k := v ]}) ls ↔
  ls !! k = Some v ∧ ∀ k' v', k' ≠ k → sel !! k' = Some v' → ls !! k' = Some v'.
Proof.
  unfold selects. rewrite map_Forall_lookup. split.
  - intros H. split.
    + apply H. rewrite MergeStringMaps_lookup_new. by rewrite decide_True.
    + intros k' v' Hne Hk'. apply H. rewrite MergeStringMaps_lookup_new.
      by rewrite decide_False.
  - intros [Hk Hrest] k' v'. rewrite MergeStringMaps_lookup_new.
    destruct (decide (k = k')) as [<-|Hne]; [by intros [= <-]|].
    intros Hk'. by apply Hrest.
Qed.

(** ** Calls extend the trace *)

Lemma performed_trans w1 w2 w3 evs1 evs2 :
  performed w1 w2 evs1 → performed w2 w3 evs2 → performed w1 w3 (evs2 ++ evs1).
Proof. unfold performed. intros H1 H2. by rewrite H2, H1, app_assoc. Qed.

Lemma call_performed c w k w' r :
  call c w k = (w', r) → performed w w' [(k, r)] ∧ scaledTo w' = scaledTo w.
Proof. unfold call. by intros [= <- <-]. Qed.

Lemma invoke_performed c w k w' err :
  invoke c w k = (w', err) →
  ∃ r, err = Remote <$> r ∧ performed w w' [(k, r)] ∧ scaledTo w' = scaledTo w.
Proof.
  unfold invoke. destruct (call c w k) as [w1 r] eqn:Hc. intros [= <- <-].
  exists r. split; [done|]. by apply call_performed in Hc.
Qed.

Lemma machineLister_List_performed c w sel w' machines err :
  machineLister_List c w sel = (w', (machines, err)) →
  ∃ r, performed w w' [(MachineList sel, r)] ∧ scaledTo w' = scaledTo w ∧
       (∀ m, m ∈ machines → selects sel (mLabels m)).
Proof.
  unfold machineLister_List. destruct (call c w _) as [w1 r] eqn:Hc.
  apply call_performed in Hc as [Hp Hs].
  destruct r; intros [= <- <- <-]; eexists; (split; [done|split; [done|]]).
  - intros m Hm. by apply elem_of_nil in Hm.
  - intros m Hm. by apply list_elem_of_filter in Hm as [? _].
Qed.

Lemma performed_unique w w' evs1 evs2 :
  performed w w' evs1 → performed w w' evs2 → evs1 = evs2.
Proof. unfold performed. intros -> H. by apply app_inv_tail in H. Qed.

Lemma machineLister_List_result c w selector :
  machineLister_List c w selector =
  match fault c (trace w) (MachineList selector) with
  | Some e =>
      ({| trace := (MachineList selector, Some e) :: trace w; scaledTo := scaledTo w |},
       ([], Some (Remote e)))
  | None =>
      ({| trace := (MachineList selector, None) :: trace w; scaledTo := scaledTo w |},
       (filter (λ m, selects selector (mLabels m)) (machineCache c (trace w)), None))
  end.
Proof. unfold machineLister_List, call. by destruct (fault c (trace w) _). Qed.

(** ** Machines to drain *)

Section Drain.
Context (c : Cluster).

Lemma getMachinesForDrain_returns w ms readyForDrain :
  0 <= readyForDrain →
  ∃ w' machines err, getMachinesForDrain c w ms readyForDrain = (w', Done (machines, err)).
Proof.
  intros Hn. unfold getMachinesForDrain.
  destruct (machineLister_List c w _) as [w1 [machines [err|]]]; [by eauto|].
  case_bool_decide; [|by eauto].
  rewrite bool_decide_true by done. by eauto.
Qed.

Lemma getMachinesForDrain_machines w ms readyForDrain w' machines err :
  0 <= readyForDrain →
  getMachinesForDrain c w ms readyForDrain = (w', Done (machines, err)) →
  Z.of_nat (length machines) <= readyForDrain ∧
  ∀ m, m ∈ machines →
    selects (MergeStringMaps (isSelector ms) {[ LabelKeyMachineCandidateForUpdate := "true" ]})
            (mLabels m) ∧
    mLabels m !! LabelKeyMachineSelectedForUpdate = None.
Proof.
  intros Hn. unfold getMachinesForDrain.
  destruct (machineLister_List c w _) as [w1 [listed [e|]]] eqn:Hl.
  { intros [= <- <- <-]. split; [simpl; lia|]. intros m Hm. by apply elem_of_nil in Hm. }
  apply machineLister_List_performed in Hl as (r & _ & _ & Hsel).
  assert (Hfilter : ∀ m,
    m ∈ filter (λ m, mLabels m !! LabelKeyMachineSelectedForUpdate = None) listed →
    selects (MergeStringMaps (isSelector ms) {[ LabelKeyMachineCandidateForUpdate := "true" ]})
            (mLabels m) ∧
    mLabels m !! LabelKeyMachineSelectedForUpdate = None).
  { intros m [Hno Hin]%list_elem_of_filter. split; [by apply Hsel|done]. }
  case_bool_decide as Hlen.
  - rewrite bool_decide_true by done. intros [= <- <- <-]. split.
    + rewrite length_take. lia.
    + intros m Hm. apply Hfilter. by eapply subseteq_take.
  - intros [= <- <- <-]. split; [lia|done].
Qed.

End Drain.

(** C7, as amended.  For every generation and every nonnegative target
    drain count, [getMachinesForDrain] returns (it does not panic) at most
    the target count of machines; every returned machine carries
    candidate-for-update = "true", does not carry selected-for-update, and
    has every label of the generation's selector other than one for the
    candidate-for-update key; so it matches the generation's selector
    whenever that selector does not ask for another value of
    candidate-for-update. *)
Theorem getMachinesForDrain_contract c w ms readyForDrain :
  0 <= readyForDrain →
  ∃ w' machines err,
    getMachinesForDrain c w ms readyForDrain = (w', Done (machines, err)) ∧
    Z.of_nat (length machines) <= readyForDrain ∧
    ∀ m, m ∈ machines →
      mLabels m !! LabelKeyMachineCandidateForUpdate = Some "true" ∧
      mLabels m !! LabelKeyMachineSelectedForUpdate = None ∧
      (∀ k v, k ≠ LabelKeyMachineCandidateForUpdate →
              isSelector ms !! k = Some v → mLabels m !! k = Some v) ∧
      (isSelector ms !! LabelKeyMachineCandidateForUpdate = None ∨
       isSelector ms !! LabelKeyMachineCandidateForUpdate = Some "true" →
       selects (isSelector ms) (mLabels m)).
Proof.
  intros Hn.
  destruct (getMachinesForDrain_returns c w ms readyForDrain Hn) as (w' & machines & err & Hrun).
  exists w', machines, err. split; [done|].
  destruct (getMachinesForDrain_machines c _ _ _ _ _ _ Hn Hrun) as [Hlen Hall].
  split; [done|]. intros m Hm. destruct (Hall m Hm) as [Hsel Hnot].
  apply selects_merged in Hsel as [Hcand Hrest].
  split; [done|]. split; [done|]. split; [done|].
  intros Hfree. unfold selects. rewrite map_Forall_lookup. intros k v Hk.
  destruct (decide (k = LabelKeyMachineCandidateForUpdate)) as [->|Hne].
  - destruct Hfree as [Hfree|Hfree]; congruence.
  - by apply Hrest.
Qed.

Lemma getMachinesForDrain_contract_witness :
  ∃ w' machines err,
    getMachinesForDrain (Examples.still [Examples.candidate] [] Examples.noFaults)
      Examples.start Examples.oddGeneration 1 = (w', Done (machines, err)) ∧
    Z.of_nat (length machines) <= 1 ∧
    ∀ m, m ∈ machines →
      mLabels m !! LabelKeyMachineCandidateForUpdate = Some "true" ∧
      mLabels m !! LabelKeyMachineSelectedForUpdate = None ∧
      (∀ k v, k ≠ LabelKeyMachineCandidateForUpdate →
              isSelector Examples.oddGeneration !! k = Some v → mLabels m !! k = Some v) ∧
      (isSelector Examples.oddGeneration !! LabelKeyMachineCandidateForUpdate = None ∨
       isSelector Examples.oddGeneration !! LabelKeyMachineCandidateForUpdate = Some "true" →
       selects (isSelector Examples.oddGeneration) (mLabels m)).
Proof.
  apply (getMachinesForDrain_contract
           (Examples.still [Examples.candidate] [] Examples.noFaults)
           Examples.start Examples.oddGeneration 1).
  lia.
Defined.

(** C7 as stated fails: a generation whose selector asks for
    candidate-for-update = "false" is given a machine that is a candidate,
    which its selector does not match. *)
Lemma getMachinesForDrain_outside_selector :
  (getMachinesForDrain (Examples.still [Examples.candidate] [] Examples.noFaults)
     Examples.start Examples.oddGeneration 1).2 = Done ([Examples.candidate], None) ∧
  ¬ selects (isSelector Examples.oddGeneration) (mLabels Examples.candidate).
Proof.
  split; [by vm_compute|].
  intros H. specialize (H LabelKeyMachineCandidateForUpdate "false").
  by vm_compute in H; specialize (H eq_refl).
Qed.

(** ** Selection of machines for update *)

Import Int32Facts.

Lemma patched_app evs1 evs2 : patched (evs1 ++ evs2) = patched evs1 + patched evs2.
Proof. unfold patched. rewrite filter_app, length_app. lia. Qed.

Lemma patched_cons e evs :
  patched (e :: evs) = (if isPatched e then 1 else 0) + patched evs.
Proof.
  unfold patched. rewrite filter_cons.
  destruct (decide (isPatched e = true)) as [->|Hn]; [simpl length; lia|].
  apply not_true_is_false in Hn. rewrite Hn. lia.
Qed.

Lemma patched_nil : patched [] = 0.
Proof. done. Qed.

Lemma patched_nonneg evs : 0 <= patched evs.
Proof. unfold patched. lia. Qed.

Lemma selectionCall_patch namespace name (labels : Labels) r :
  selectionCall
    (PatchMachine namespace name
       (LabelsPatch (MergeStringMaps labels {[ LabelKeyMachineSelectedForUpdate := "true" ]})), r).
Proof.
  unfold selectionCall. simpl. rewrite MergeStringMaps_lookup_new. by rewrite decide_True.
Qed.

Lemma selectionCall_list selector r : selectionCall (MachineList selector, r).
Proof. done. Qed.

Ltac int32_lia :=
  unfold Int32.in_range, Int32.min_int, Int32.max_int in *;
  change (2 ^ 31) with 2147483648 in *; simpl length in *; lia.

Section Selection.
Context (c : Cluster).

(** The labelling loop counts the patches that went through. *)
Lemma labelSelected_spec machines : ∀ w k w' n err,
  0 <= k → k + Z.of_nat (length machines) <= Int32.max_int →
  labelSelected c w machines k = (w', (n, err)) →
  ∃ evs, performed w w' evs ∧ scaledTo w' = scaledTo w ∧ Forall selectionCall evs ∧
         n = k + patched evs ∧ patched evs <= Z.of_nat (length machines) ∧
         remoteOnly err.
Proof.
  induction machines as [|m machines IH]; intros w k w' n err Hk Hlen; cbn [labelSelected].
  - intros [= <- <- <-]. exists []. rewrite patched_nil. simpl length.
    split_and!; [done|done|apply Forall_nil_2|lia|lia|done].
  - unfold machineControl_PatchMachine.
    destruct (invoke c w _) as [w1 e] eqn:Hp.
    apply invoke_performed in Hp as (r & -> & Hp & Hs).
    destruct r as [e|]; simpl.
    + intros [= <- <- <-]. eexists. split; [exact Hp|]. split; [done|].
      split; [apply Forall_singleton, selectionCall_patch|].
      rewrite patched_cons, patched_nil. simpl. simpl length.
      split; [lia|]. split; [lia|done].
    + intros Hrest. simpl length in Hlen.
      assert (Hadd : Int32.add k 1 = k + 1).
      { apply add_exact. int32_lia. }
      rewrite Hadd in Hrest.
      apply IH in Hrest as (evs & Hp' & Hs' & Hq & -> & Hle & Hrem); [|int32_lia..].
      eexists. split; [exact (performed_trans _ _ _ _ _ Hp Hp')|].
      split; [congruence|]. split.
      { apply Forall_app. split; [done|apply Forall_singleton, selectionCall_patch]. }
      rewrite patched_app, patched_cons, patched_nil. simpl.
      split; [lia|]. split; [simpl length; lia|done].
Qed.

(** Labelling a machine set down to a new scale that is not above its size
    does not panic and patches at most the difference. *)
Lemma labelMachinesToSelectedForUpdate_spec w ms newScale w' o :
  0 <= Int32.sub (isReplicas ms) newScale →
  labelMachinesToSelectedForUpdate c w ms newScale = (w', o) →
  ∃ n err evs, o = Done (n, err) ∧ performed w w' evs ∧ scaledTo w' = scaledTo w ∧
    Forall selectionCall evs ∧ n = patched evs ∧
    patched evs <= Int32.sub (isReplicas ms) newScale ∧ remoteOnly err.
Proof.
  intros Hr. unfold labelMachinesToSelectedForUpdate.
  destruct (getMachinesForDrain_returns c w ms _ Hr) as (w1 & machines & err & Hd).
  rewrite Hd. pose proof (getMachinesForDrain_machines c _ _ _ _ _ _ Hr Hd) as [Hlen _].
  assert (Hlist : ∃ r, performed w w1 [(MachineList (MergeStringMaps (isSelector ms)
             {[ LabelKeyMachineCandidateForUpdate := "true" ]}), r)] ∧
             scaledTo w1 = scaledTo w ∧ remoteOnly err).
  { revert Hd. unfold getMachinesForDrain.
    destruct (machineLister_List c w _) as [w2 [listed e]] eqn:Hl.
    pose proof Hl as Hl'.
    apply machineLister_List_performed in Hl as (r & Hp & Hs & _).
    assert (remoteOnly e).
    { revert Hl'. unfold machineLister_List.
      destruct (call c w _) as [? [?|]]; by intros [= <- <- <-]. }
    destruct e; [by intros [= <- <- <-]; exists r|].
    repeat case_bool_decide; intros [= <- <- <-]; by exists r. }
  destruct Hlist as (r & Hp & Hs & Hrem).
  destruct err as [err|].
  - intros [= <- <-]. eexists _, _, _. split; [done|]. split; [exact Hp|].
    split; [done|]. split; [apply Forall_singleton, selectionCall_list|].
    rewrite patched_cons, patched_nil. simpl. split; [done|]. split; [lia|done].
  - destruct (labelSelected c w1 machines 0) as [w2 [n err]] eqn:Hl. intros [= <- <-].
    pose proof (sub_in_range (isReplicas ms) newScale).
    apply labelSelected_spec in Hl as (evs & Hp' & Hs' & Hq & -> & Hle & Hrem');
      [|int32_lia..].
    eexists _, _, _. split; [done|]. split; [exact (performed_trans _ _ _ _ _ Hp Hp')|].
    split; [congruence|]. split.
    { apply Forall_app. split; [done|apply Forall_singleton, selectionCall_list]. }
    rewrite patched_app, patched_cons, patched_nil. simpl. split; [lia|]. split; [lia|done].
Qed.

(** The arithmetic of one round of the selection loop, in [int32]. *)
Lemma newReplicasCount_positive ms cap total :
  Int32.in_range cap → 0 <= total < cap → 0 < isReplicas ms →
  readyForUpdateCount ms cap total = Z.min (isReplicas ms) (cap - total) ∧
  Int32.sub (isReplicas ms) (newReplicasCount ms cap total) =
    Z.min (isReplicas ms) (cap - total) ∧
  ¬ newReplicasCount ms cap total > isReplicas ms.
Proof.
  intros Hcap Htotal Hpos. unfold newReplicasCount, readyForUpdateCount.
  rewrite (sub_exact cap total) by int32_lia.
  rewrite (wrap_id (Z.min _ _)) by int32_lia.
  split; [done|]. split.
  - unfold Int32.sub at 1 2. rewrite wrap_sub_r.
    replace (isReplicas ms - (isReplicas ms - Z.min (isReplicas ms) (cap - total)))
      with (Z.min (isReplicas ms) (cap - total)) by lia.
    apply wrap_id. int32_lia.
  - destruct (decide (Int32.in_range (isReplicas ms - Z.min (isReplicas ms) (cap - total))))
      as [Hin|Hout].
    + rewrite sub_exact by done. lia.
    + pose proof (sub_in_range (isReplicas ms) (Z.min (isReplicas ms) (cap - total))).
      int32_lia.
Qed.

Lemma newReplicasCount_negative ms cap total :
  Int32.in_range cap → 0 <= total < cap → isReplicas ms < 0 →
  newReplicasCount ms cap total > isReplicas ms.
Proof.
  intros Hcap Htotal Hneg. unfold newReplicasCount, readyForUpdateCount.
  rewrite (sub_exact cap total) by int32_lia.
  rewrite Z.min_l by lia.
  unfold Int32.sub. rewrite wrap_sub_r, Z.sub_diag.
  rewrite wrap_id by int32_lia. lia.
Qed.

(** The invariant of the selection loop: the total stays within the budget
    and is the number of machines patched; the loop does not panic. *)
Lemma selectFrom_spec cap oldISs : Int32.in_range cap → ∀ w total w' o,
  0 <= total →
  selectFrom c w cap oldISs total = (w', o) →
  ∃ evs, performed w w' evs ∧ scaledTo w' = scaledTo w ∧ Forall selectionCall evs ∧
         total + patched evs <= Z.max total cap ∧ selectionOutcome oldISs total evs o.
Proof.
  intros Hcap. induction oldISs as [|ms oldISs IH]; intros w total w' o Htotal;
    cbn [selectFrom].
  { intros [= <- <-]. exists []. simpl. rewrite ?patched_nil.
    split_and!; [done|done|apply Forall_nil_2|lia|lia]. }
  case_bool_decide as Hbreak.
  { intros [= <- <-]. exists []. simpl. rewrite ?patched_nil.
    split_and!; [done|done|apply Forall_nil_2|lia|lia]. }
  case_bool_decide as Hzero.
  { intros Hrun. apply IH in Hrun as (evs & Hp & Hs & Hq & Hle & Hsel); [|done].
    exists evs. repeat (split; [done|]).
    destruct o as [[n [[]|]]|]; try done.
    destruct Hsel as (-> & ms' & Hin & ?). split; [done|]. exists ms'. split; [|done].
    by apply list_elem_of_further. }
  case_bool_decide as Hbad.
  { intros [= <- <-]. exists []. simpl. rewrite ?patched_nil.
    split; [done|]. split; [done|]. split; [apply Forall_nil_2|]. split; [lia|].
    split; [done|]. exists ms. split; [apply list_elem_of_here|].
    split; [done|]. split; [done|]. split; [|done].
    destruct (decide (isReplicas ms < 0)) as [|Hpos]; [done|].
    destruct (newReplicasCount_positive ms cap total) as (_ & _ & Hok);
      [done|lia|lia|done]. }
  assert (Hpos : 0 < isReplicas ms).
  { destruct (decide (isReplicas ms < 0)) as [Hneg|]; [|lia].
    pose proof (newReplicasCount_negative ms cap total Hcap ltac:(lia) Hneg). lia. }
  destruct (newReplicasCount_positive ms cap total Hcap ltac:(lia) Hpos) as (_ & Hdrain & _).
  destruct (labelMachinesToSelectedForUpdate c w ms _) as [w1 o1] eqn:Hlabel.
  apply labelMachinesToSelectedForUpdate_spec in Hlabel
    as (n & err & evs1 & -> & Hp1 & Hs1 & Hq1 & -> & Hle1 & Hrem); [|lia].
  pose proof (patched_nonneg evs1).
  assert (Hadd : Int32.add total (patched evs1) = total + patched evs1).
  { apply add_exact. int32_lia. }
  rewrite Hadd. destruct err as [err|].
  - intros [= <- <-]. exists evs1. repeat (split; [done|]). split; [lia|].
    destruct err; done.
  - intros Hrun. apply IH in Hrun as (evs & Hp & Hs & Hq & Hle & Hsel); [|lia].
    exists (evs ++ evs1). split; [by eapply performed_trans|].
    split; [congruence|]. split; [by apply Forall_app|].
    rewrite patched_app. split; [lia|].
    destruct o as [[n [[]|]]|]; simpl in *; rewrite ?patched_app; try lia.
    destruct Hsel as (-> & ms' & Hin & ?). split; [done|]. exists ms'. split; [|done].
    by apply list_elem_of_further.
Qed.

(** A loop that ran through [before] below the budget goes on with [rest]. *)
Lemma selectFrom_app cap before rest : ∀ w total w1 total1,
  selectFrom c w cap before total = (w1, Done (total1, None)) →
  total1 < cap →
  selectFrom c w cap (before ++ rest) total = selectFrom c w1 cap rest total1.
Proof.
  induction before as [|ms before IH]; intros w total w1 total1; cbn [selectFrom app].
  { by intros [= <- <-]. }
  case_bool_decide; [intros [= <- <-]; lia|].
  case_bool_decide; [by apply IH|].
  case_bool_decide; [done|].
  destruct (labelMachinesToSelectedForUpdate c w ms _) as [w2 [[n [err|]]|]]; [done| |done].
  by apply IH.
Qed.

Lemma newReplicasCount_exact ms cap total :
  Int32.in_range cap → 0 <= total < cap → Int32.in_range (isReplicas ms) →
  newReplicasCount ms cap total = isReplicas ms - Z.min (isReplicas ms) (cap - total).
Proof.
  intros Hcap Htotal Hsize. unfold newReplicasCount, readyForUpdateCount.
  rewrite (sub_exact cap total) by int32_lia.
  rewrite (wrap_id (Z.min _ _)) by int32_lia.
  apply sub_exact. int32_lia.
Qed.

(** The loop computes in [int32] what the specification computes in
    integers. *)
Lemma selectFrom_spec_select cap oldISs :
  Int32.in_range cap →
  Forall (λ ms, Int32.in_range (isReplicas ms)) oldISs →
  ∀ w total, 0 <= total →
  selectFrom c w cap oldISs total =
  spec_select (labelMachinesToSelectedForUpdate c) w cap oldISs total.
Proof.
  intros Hcap. induction 1 as [|ms oldISs Hsize _ IH]; intros w total Htotal;
    cbn [selectFrom spec_select]; [done|].
  rewrite (bool_decide_ext (total >= cap) (cap <= total)) by lia.
  case_bool_decide as Hbreak; [done|].
  case_bool_decide as Hzero; [by apply IH|].
  rewrite (newReplicasCount_exact ms cap total) by (done || lia).
  case_bool_decide as Hbad; [done|].
  destruct (newReplicasCount_positive ms cap total Hcap ltac:(lia) ltac:(lia))
    as (_ & Hdrain & _).
  rewrite (newReplicasCount_exact ms cap total) in Hdrain by (done || lia).
  destruct (labelMachinesToSelectedForUpdate c w ms _) as [w1 o] eqn:Hlabel.
  apply labelMachinesToSelectedForUpdate_spec in Hlabel
    as (n & err & evs & -> & _ & _ & _ & -> & Hle & _); [|lia].
  pose proof (patched_nonneg evs).
  rewrite add_exact by int32_lia.
  destruct err; [done|]. apply IH. lia.
Qed.

End Selection.

Global Instance olderOrEqual_total : Total olderOrEqual.
Proof. intros a b. unfold olderOrEqual. lia. Qed.

Lemma sortByCreationTimestamp_sorted machineSets :
  Sorted olderOrEqual (sortByCreationTimestamp machineSets).
Proof. apply (Sorted_merge_sort olderOrEqual). Qed.

Lemma sortByCreationTimestamp_perm machineSets :
  sortByCreationTimestamp machineSets ≡ₚ machineSets.
Proof. apply merge_sort_Permutation. Qed.

Lemma budget_wraps_below (budget : Z) :
  0 < budget → Z.max 0 (Int32.wrap budget) <= Z.max 0 budget.
Proof.
  intros Hpos. destruct (decide (Int32.in_range budget)) as [Hin|Hout].
  - by rewrite wrap_id.
  - pose proof (wrap_in_range budget). int32_lia.
Qed.

(** C2.  In every call of [selectMachineForUpdate] the machines newly
    labelled selected-for-update (every patch of the call sets that label)
    number at most [availableMachineCount - minAvailable], and none when
    that is not positive; without an error the count is what the call
    returns.  If [availableMachineCount <= minAvailable] no call is made at
    all and the result is zero without an error. *)
Theorem selectMachineForUpdate_budget c w allISs oldISs deployment undergoing :
  let budget := availableMachineCount allISs undergoing - minAvailable c deployment in
  let run := selectMachineForUpdate c w allISs oldISs deployment undergoing in
  ∃ evs, performed w run.1 evs ∧ Forall selectionCall evs ∧
         patched evs <= Z.max 0 budget ∧
         (∀ n, run.2 = Done (n, None) → n = patched evs) ∧
         (availableMachineCount allISs undergoing <= minAvailable c deployment →
          evs = [] ∧ run.2 = Done (0, None)).
Proof.
  intros budget run. subst budget run. unfold selectMachineForUpdate.
  case_bool_decide as Hgate.
  { exists []. simpl. rewrite patched_nil.
    split_and!; [done|apply Forall_nil_2|lia|by intros n [= <-]|done]. }
  destruct (selectFrom c w _ _ 0) as [w' o] eqn:Hrun.
  apply selectFrom_spec in Hrun as (evs & Hp & _ & Hcalls & Hle & Hout);
    [|apply sub_in_range|done].
  exists evs. simpl. split_and!; [done|done| | |lia].
  - pose proof (budget_wraps_below
      (availableMachineCount allISs undergoing - minAvailable c deployment) ltac:(lia)).
    unfold Int32.sub in Hle. lia.
  - intros n ->. simpl in Hout. lia.
Qed.

(** C10.  When no old generation has a negative desired replica count,
    [selectMachineForUpdate] never returns the invalid-request error (and
    it never panics). *)
Theorem selectMachineForUpdate_never_invalid c w allISs oldISs deployment undergoing :
  Forall (λ ms, 0 <= isReplicas ms) oldISs →
  let run := selectMachineForUpdate c w allISs oldISs deployment undergoing in
  run.2 ≠ Panicked ∧
  ∀ n name oldCount newCount, run.2 ≠ Done (n, Some (InvalidRequest name oldCount newCount)).
Proof.
  intros Hnonneg run. subst run. unfold selectMachineForUpdate.
  case_bool_decide as Hgate; [done|].
  destruct (selectFrom c w _ _ 0) as [w' o] eqn:Hrun.
  apply selectFrom_spec in Hrun as (evs & _ & _ & _ & _ & Hout); [|apply sub_in_range|done].
  simpl. split; [by intros ->|].
  intros n name oldCount newCount ->. simpl in Hout.
  destruct Hout as (_ & ms & Hin & _ & _ & Hneg & _).
  rewrite sortByCreationTimestamp_perm in Hin.
  rewrite Forall_forall in Hnonneg. apply Hnonneg in Hin. lia.
Qed.

Lemma selectMachineForUpdate_never_invalid_witness :
  let run :=
    selectMachineForUpdate (Examples.still Examples.workers [] Examples.noFaults) Examples.start
      [Examples.oldIS; Examples.newIS] [Examples.oldIS] Examples.deployment 0 in
  run.2 ≠ Panicked ∧
  ∀ n name oldCount newCount, run.2 ≠ Done (n, Some (InvalidRequest name oldCount newCount)).
Proof.
  apply (selectMachineForUpdate_never_invalid
           (Examples.still Examples.workers [] Examples.noFaults) Examples.start
           [Examples.oldIS; Examples.newIS] [Examples.oldIS] Examples.deployment 0).
  apply Forall_singleton. simpl. lia.
Defined.

(** The first pass of the scenario of the specification: five replicas,
    one may be unavailable, all five old machines available; exactly one
    machine is labelled. *)
Example selectMachineForUpdate_first_pass :
  let run :=
    selectMachineForUpdate (Examples.still Examples.workers [] Examples.noFaults) Examples.start
      [Examples.oldIS; Examples.newIS] [Examples.oldIS] Examples.deployment 0 in
  run.2 = Done (1, None) ∧ patched (trace run.1) = 1.
Proof. by vm_compute. Qed.


(** C6.  [selectMachineForUpdate] walks the old generations oldest first
    and does what the specification says, in exact arithmetic: it skips a
    generation of size zero, has [min(generationReplicas, remainingBudget)]
    machines of any other selected by labelling it down to
    [generationReplicas - readyForUpdateCount], and stops once the total
    reaches the budget [totalReadyForUpdateCount].  The sizes of the
    generations are [int32]. *)
Theorem selectMachineForUpdate_steps c w allISs oldISs deployment undergoing :
  Forall (λ ms, Int32.in_range (isReplicas ms)) oldISs →
  let generations := sortByCreationTimestamp oldISs in
  let totalReadyForUpdateCount :=
    Int32.sub (availableMachineCount allISs undergoing) (minAvailable c deployment) in
  Sorted olderOrEqual generations ∧ generations ≡ₚ oldISs ∧
  selectMachineForUpdate c w allISs oldISs deployment undergoing =
    if bool_decide (availableMachineCount allISs undergoing <= minAvailable c deployment)
    then (w, Done (0, None))
    else spec_select (labelMachinesToSelectedForUpdate c) w totalReadyForUpdateCount
           generations 0.
Proof.
  intros Hsizes generations cap. subst generations cap.
  split; [apply sortByCreationTimestamp_sorted|].
  split; [apply sortByCreationTimestamp_perm|].
  unfold selectMachineForUpdate. case_bool_decide; [done|].
  apply selectFrom_spec_select; [apply sub_in_range| |done].
  by rewrite sortByCreationTimestamp_perm.
Qed.

Lemma selectMachineForUpdate_steps_witness :
  let c := Examples.still Examples.workers [] Examples.noFaults in
  let generations := sortByCreationTimestamp [Examples.oldIS] in
  let totalReadyForUpdateCount :=
    Int32.sub (availableMachineCount [Examples.oldIS; Examples.newIS] 0)
              (minAvailable c Examples.deployment) in
  Sorted olderOrEqual generations ∧ generations ≡ₚ [Examples.oldIS] ∧
  selectMachineForUpdate c Examples.start [Examples.oldIS; Examples.newIS] [Examples.oldIS]
    Examples.deployment 0 =
    if bool_decide (availableMachineCount [Examples.oldIS; Examples.newIS] 0
                    <= minAvailable c Examples.deployment)
    then (Examples.start, Done (0, None))
    else spec_select (labelMachinesToSelectedForUpdate c) Examples.start
           totalReadyForUpdateCount generations 0.
Proof.
  apply (selectMachineForUpdate_steps
           (Examples.still Examples.workers [] Examples.noFaults) Examples.start
           [Examples.oldIS; Examples.newIS] [Examples.oldIS] Examples.deployment 0).
  apply Forall_singleton. split; by vm_compute.
Defined.

(** C8, as amended.  When the loop of [selectMachineForUpdate] comes to a
    generation for which the computed new replica count exceeds the current
    one, the call returns at once: with the invalid-request error that
    names the generation and the two counts, with a count of zero, and
    without any call for that generation or a later one (the world is the
    one the earlier generations left).  Nothing is clamped. *)
Theorem selectMachineForUpdate_invalid_request c w allISs oldISs deployment undergoing
    before targetIS after w1 total :
  let totalReadyForUpdateCount :=
    Int32.sub (availableMachineCount allISs undergoing) (minAvailable c deployment) in
  let newCount := newReplicasCount targetIS totalReadyForUpdateCount total in
  ¬ availableMachineCount allISs undergoing <= minAvailable c deployment →
  sortByCreationTimestamp oldISs = before ++ targetIS :: after →
  selectFrom c w totalReadyForUpdateCount before 0 = (w1, Done (total, None)) →
  total < totalReadyForUpdateCount →
  isReplicas targetIS ≠ 0 →
  newCount > isReplicas targetIS →
  selectMachineForUpdate c w allISs oldISs deployment undergoing =
    (w1, Done (0, Some (InvalidRequest (isName targetIS) (isReplicas targetIS) newCount))).
Proof.
  intros cap newCount Hgate Hsorted Hbefore Htotal Hsize Hbad. subst newCount.
  unfold selectMachineForUpdate. rewrite bool_decide_false by done.
  fold cap. rewrite Hsorted.
  rewrite (selectFrom_app c cap before (targetIS :: after) _ _ _ _ Hbefore Htotal).
  cbn [selectFrom]. rewrite bool_decide_false by lia.
  rewrite bool_decide_false by done. by rewrite bool_decide_true.
Qed.

Lemma selectMachineForUpdate_invalid_request_witness :
  let c := Examples.still [Examples.worker "m1" "n1"] [] Examples.noFaults in
  let allISs := [Examples.smallIS; Examples.brokenIS; Examples.fullIS] in
  selectMachineForUpdate c Examples.start allISs [Examples.brokenIS; Examples.smallIS]
    Examples.deployment 0 =
    ((selectFrom c Examples.start 2 [Examples.smallIS] 0).1,
     Done (0, Some (InvalidRequest "broken" (-1) 0))).
Proof.
  apply (selectMachineForUpdate_invalid_request
           (Examples.still [Examples.worker "m1" "n1"] [] Examples.noFaults) Examples.start
           [Examples.smallIS; Examples.brokenIS; Examples.fullIS]
           [Examples.brokenIS; Examples.smallIS] Examples.deployment 0
           [Examples.smallIS] Examples.brokenIS []
           (selectFrom (Examples.still [Examples.worker "m1" "n1"] [] Examples.noFaults)
              Examples.start 2 [Examples.smallIS] 0).1 1).
  - by vm_compute.
  - by vm_compute.
  - by vm_compute.
  - by vm_compute.
  - by vm_compute.
  - by vm_compute.
Defined.

(** C8 as stated fails: the call that returns the invalid-request error for
    the generation "broken" has before that labelled a machine of the older
    generation "small"; the count it returns is zero all the same. *)
Lemma selectMachineForUpdate_invalid_after_selecting :
  let run :=
    selectMachineForUpdate (Examples.still [Examples.worker "m1" "n1"] [] Examples.noFaults)
      Examples.start [Examples.smallIS; Examples.brokenIS; Examples.fullIS]
      [Examples.brokenIS; Examples.smallIS] Examples.deployment 0 in
  run.2 = Done (0, Some (InvalidRequest "broken" (-1) 0)) ∧
  patched (trace run.1) = 1 ∧
  head (trace run.1) =
    Some (PatchMachine "shoot" "m1"
            (LabelsPatch (<[LabelKeyMachineSelectedForUpdate := "true"]>
                            (mLabels (Examples.worker "m1" "n1")))), None).
Proof. by vm_compute. Qed.

(** ** Ownership transfer *)

Ltac count_patched :=
  repeat first [rewrite patched_app | rewrite patched_cons | rewrite patched_nil];
  cbn [isPatched].

Ltac calls_ok :=
  unfold patchesOk in *; simpl;
  repeat first
    [ assumption
    | apply Forall_nil_2
    | apply Forall_app_2
    | apply Forall_cons_2; [first [exact I | done | by intros [=]]|] ].

Lemma patchesOk_app evs1 evs2 : patchesOk evs1 → patchesOk evs2 → patchesOk (evs1 ++ evs2).
Proof. intros. by apply Forall_app. Qed.

Lemma scaleMachineSetAndRecordEvent_performed c w ms newScale d w' scaled err :
  scaleMachineSetAndRecordEvent c w ms newScale d = (w', (scaled, err)) →
  ∃ r, performed w w' [(MachineSetUpdate (isName ms) newScale, r)] ∧ err = Remote <$> r ∧
       match r with
       | None => scaledTo w' = <[isName ms := newScale]> (scaledTo w) ∧
                 scaled = bool_decide (isReplicas ms ≠ newScale)
       | Some _ => scaledTo w' = scaledTo w ∧ scaled = false
       end.
Proof.
  unfold scaleMachineSetAndRecordEvent. destruct (call c w _) as [w1 r] eqn:Hc.
  apply call_performed in Hc as [Hp Hs].
  destruct r; intros [= <- <- <-]; eexists; (split; [exact Hp|]); by rewrite ?Hs.
Qed.

Lemma nodeLister_List_performed c w sel w' nodes err :
  nodeLister_List c w sel = (w', (nodes, err)) →
  ∃ r, performed w w' [(NodeList sel, r)] ∧ scaledTo w' = scaledTo w ∧ err = Remote <$> r.
Proof.
  unfold nodeLister_List. destruct (call c w _) as [w1 r] eqn:Hc.
  apply call_performed in Hc as [Hp Hs].
  destruct r; intros [= <- <- <-]; by eexists.
Qed.

Lemma machineLister_List_error c w sel w' machines err :
  machineLister_List c w sel = (w', (machines, err)) →
  ∃ r, performed w w' [(MachineList sel, r)] ∧ scaledTo w' = scaledTo w ∧ err = Remote <$> r.
Proof.
  unfold machineLister_List. destruct (call c w _) as [w1 r] eqn:Hc.
  apply call_performed in Hc as [Hp Hs].
  destruct r; intros [= <- <- <-]; by eexists.
Qed.

Section Transfer.
Context (c : Cluster) (newIS : MachineSet) (d : MachineDeployment).

(** The loop over the nodes: it either runs to its end with both counters
    raised by the number of machines patched, or returns an error; after a
    failed patch it returns through the compensation. *)
Lemma transferNodes_spec ms machines nodes : ∀ w t a w' fl,
  Int32.in_range t → Int32.in_range a →
  transferNodes c w newIS ms d machines nodes t a = (w', fl) →
  ∃ evs, performed w w' evs ∧ Forall transferCall evs ∧ nodesTransferred newIS ms w w' t a evs fl.
Proof.
  induction nodes as [|node nodes IH]; intros w t a w' fl Ht Ha; cbn [transferNodes].
  { intros [= <- <-]. exists []. split; [done|]. split; [apply Forall_nil_2|].
    simpl. rewrite patched_nil, !Z.add_0_r, !wrap_id by done.
    split_and!; [done|apply Forall_nil_2|done|done]. }
  destruct (getMachineFromNode machines node) as [machine|]; [|by apply IH].
  unfold machineControl_PatchMachine.
  destruct (invoke c w _) as [w1 err] eqn:Hpatch.
  apply invoke_performed in Hpatch as (r & -> & Hp1 & Hs1).
  destruct r as [e|]; cbn [fmap option_fmap option_map].
  - (* the patch failed *)
    destruct (scaleMachineSetAndRecordEvent c w1 newIS _ d) as [w2 [scaled err2]] eqn:Hup.
    apply scaleMachineSetAndRecordEvent_performed in Hup as (r2 & Hp2 & -> & Hr2).
    destruct r2 as [e2|]; cbn [fmap option_fmap option_map].
    + intros [= <- <-]. eexists. split; [exact (performed_trans _ _ _ _ _ Hp1 Hp2)|].
      split; [calls_ok|]. right.
      exists [], [(MachineSetUpdate (isName newIS) (Int32.add (isReplicas newIS) a), Some e2)].
      eexists _, _, _, e. split; [reflexivity|]. split; [apply Forall_nil_2|].
      rewrite patched_nil, !Z.add_0_r, !wrap_id by done. left. by exists e2.
    + destruct (scaleMachineSetAndRecordEvent c w2 ms _ d) as [w3 [scaled3 err3]] eqn:Hdown.
      apply scaleMachineSetAndRecordEvent_performed in Hdown as (r3 & Hp3 & -> & Hr3).
      destruct Hr2 as [_ ->].
      pose proof (performed_trans _ _ _ _ _ (performed_trans _ _ _ _ _ Hp1 Hp2) Hp3) as Hp.
      simpl in Hp.
      destruct r3 as [e3|]; cbn [fmap option_fmap option_map]; intros [= <- <-];
        (eexists; split; [exact Hp|]; split; [calls_ok|]; right;
         exists []; eexists [_; _], _, _, _, e; split; [reflexivity|];
         split; [apply Forall_nil_2|];
         rewrite patched_nil, !Z.add_0_r, !wrap_id by done).
      * right. left. by exists e3.
      * right. by right.
  - (* the patch went through *)
    destruct (invoke c w1 _) as [w2 err] eqn:Hnode.
    apply invoke_performed in Hnode as (r2 & -> & Hp2 & Hs2).
    pose proof (performed_trans _ _ _ _ _ Hp1 Hp2) as Hp. simpl in Hp.
    destruct r2 as [e2|]; cbn [fmap option_fmap option_map].
    + intros [= <- <-]. eexists. split; [exact Hp|]. split; [calls_ok|].
      left. split; [calls_ok|]. by eexists.
    + intros Hrun.
      apply IH in Hrun as (evs & Hp' & Hcalls & Hpost); [|apply add_in_range..].
      eexists. split; [exact (performed_trans _ _ _ _ _ Hp Hp')|].
      split; [calls_ok|].
      unfold Int32.add in Hpost.
      destruct fl as [[t' a']|res]; simpl in *.
      * destruct Hpost as (Hs' & Hok & -> & ->).
        count_patched.
        split; [congruence|]. split; [calls_ok|].
        rewrite !wrap_add_l. split; f_equal; lia.
      * destruct Hpost as [[Hok Hsome]|(before & after & ns & nm & patch & e & -> & Hok & Hcomp)].
        { left. split; [|done]. calls_ok. }
        right. eexists (before ++ _), after, ns, nm, patch, e.
        split; [by rewrite <- app_assoc|].
        split; [calls_ok|].
        count_patched.
        rewrite !wrap_add_l in Hcomp.
        match goal with
        | |- compensated _ _ (Int32.wrap ?x) (Int32.wrap ?y) _ _ _ =>
            replace x with (a + 1 + patched before) by lia;
            replace y with (t + 1 + patched before) by lia
        end.
        done.
Qed.

Lemma compensated_error ms added transferred e after r :
  compensated newIS ms added transferred e after r → is_Some r.2.
Proof. intros [(? & _ & ->)|[(? & _ & ->)|(_ & ->)]]; by eexists. Qed.

(** The loop over the old machine sets: at its end every old machine set
    has been scaled down by the machines moved out of it. *)
Lemma transferMachineSets_spec oldISs : ∀ w a w' fl,
  Int32.in_range a →
  transferMachineSets c w newIS d oldISs a = (w', fl) →
  ∃ evs, performed w w' evs ∧ Forall transferCall evs ∧
         setsTransferred newIS oldISs w w' a evs fl.
Proof.
  induction oldISs as [|ms oldISs IH]; intros w a w' fl Ha; cbn [transferMachineSets].
  { intros [= <- <-]. exists []. split; [done|]. split; [apply Forall_nil_2|].
    simpl. split; [apply Forall_nil_2|]. exists [].
    rewrite patched_nil. simpl. rewrite Z.add_0_r, wrap_id by done.
    split_and!; [done|apply Forall_nil_2|done|done|done]. }
  destruct (machineLister_List c w _) as [w1 [machines err]] eqn:Hml.
  apply machineLister_List_error in Hml as (r1 & Hp1 & Hs1 & ->).
  destruct r1 as [e1|]; cbn [fmap option_fmap option_map].
  { intros [= <- <-]. eexists. split; [exact Hp1|]. split; [calls_ok|].
    simpl. split; [by eexists|]. left. calls_ok. }
  destruct (nodeLister_List c w1 _) as [w2 [nodes err]] eqn:Hnl.
  apply nodeLister_List_performed in Hnl as (r2 & Hp2 & Hs2 & ->).
  pose proof (performed_trans _ _ _ _ _ Hp1 Hp2) as Hp12. simpl in Hp12.
  destruct r2 as [e2|]; cbn [fmap option_fmap option_map].
  { intros [= <- <-]. eexists. split; [exact Hp12|]. split; [calls_ok|].
    simpl. split; [by eexists|]. left. calls_ok. }
  destruct (transferNodes c w2 newIS ms d machines nodes 0 a) as [w3 fl1] eqn:Hnodes.
  apply transferNodes_spec in Hnodes as (evs1 & Hp3 & Hcalls1 & Hpost1);
    [|int32_lia|done].
  pose proof (performed_trans _ _ _ _ _ Hp12 Hp3) as Hp123.
  assert (Hlists : Forall transferCall
            [(NodeList {[LabelKeyMachineUpdateSuccessful := "true"]}, @None RemoteError);
             (MachineList (isSelector ms), None)]) by calls_ok.
  assert (Hlists' : patchesOk
            [(NodeList {[LabelKeyMachineUpdateSuccessful := "true"]}, @None RemoteError);
             (MachineList (isSelector ms), None)]) by calls_ok.
  destruct fl1 as [[t1 a1]|r]; simpl in Hpost1.
  - destruct Hpost1 as (Hs3 & Hok1 & -> & ->). rewrite Z.add_0_l.
    destruct (scaleMachineSetAndRecordEvent c w3 ms _ d) as [w4 [scaled err]] eqn:Hdown.
    apply scaleMachineSetAndRecordEvent_performed in Hdown as (r4 & Hp4 & -> & Hr4).
    pose proof (performed_trans _ _ _ _ _ Hp123 Hp4) as Hp1234.
    destruct r4 as [e4|]; cbn [fmap option_fmap option_map].
    { intros [= <- <-]. eexists. split; [exact Hp1234|].
      split; [calls_ok|].
      simpl. split; [by eexists|]. left.
      calls_ok. }
    destruct Hr4 as [Hs4 _]. intros Hrest.
    apply IH in Hrest as (evs & Hp5 & Hcalls & Hpost); [|apply wrap_in_range].
    eexists. split; [exact (performed_trans _ _ _ _ _ Hp1234 Hp5)|].
    split; [calls_ok|].
    pose proof (patched_nonneg evs1) as Hnn1.
    destruct fl as [a'|r]; simpl in Hpost |- *.
    + destruct Hpost as (Hok & ks & Hlen & Hks & Htotal & -> & Hstore).
      split; [calls_ok|].
      exists (patched evs1 :: ks). simpl.
      split; [by rewrite Hlen|]. split; [by apply Forall_cons_2|].
      count_patched.
      split; [lia|]. split; [rewrite wrap_add_l; f_equal; lia|].
      rewrite Hstore, Hs4, Hs3, Hs2, Hs1. do 2 f_equal.
      unfold Int32.sub. by rewrite wrap_sub_r.
    + destruct Hpost as [Hsome [Hok|(ms' & before & after & ns & nm & patch & e & k &
                                      Hin & -> & Hok & Hk & Hcomp)]].
      { split; [done|]. left.
        apply patchesOk_app; [done|calls_ok]. }
      split; [done|]. right.
      eexists ms', (before ++ _), after, ns, nm, patch, e, k.
      split; [by apply list_elem_of_further|].
      split; [by rewrite <- app_assoc|].
      split; [calls_ok|].
      count_patched.
      pose proof (patched_nonneg before). split; [lia|].
      rewrite wrap_add_l in Hcomp.
      match goal with
      | |- compensated _ _ (Int32.wrap ?x) _ _ _ _ =>
          replace x with (a + patched evs1 + patched before) by lia
      end.
      done.
  - intros [= <- <-]. eexists. split; [exact Hp123|].
    split; [calls_ok|]. simpl.
    destruct Hpost1 as [[Hok Hsome]|(before & after & ns & nm & patch & e & -> & Hok & Hcomp)].
    { split; [done|]. left. calls_ok. }
    split; [by eapply compensated_error|]. right.
    eexists ms, (before ++ _), after, ns, nm, patch, e, (patched before).
    split; [apply list_elem_of_here|].
    split; [by rewrite <- app_assoc|].
    split; [calls_ok|].
    count_patched.
    pose proof (patched_nonneg before). split; [lia|].
    rewrite Z.add_0_l in Hcomp.
    match goal with
    | |- compensated _ _ (Int32.wrap ?x) _ _ _ _ =>
        replace x with (a + patched before) by lia
    end.
    done.
Qed.

End Transfer.

(** *** Replica counts after a transfer *)

Lemma scaledDown_lookup_other oldISs : ∀ ks m name,
  name ∉ isName <$> oldISs → scaledDown oldISs ks m !! name = m !! name.
Proof.
  induction oldISs as [|ms oldISs IH]; intros [|k ks] m name Hname; simpl; try done.
  rewrite fmap_cons, not_elem_of_cons in Hname. destruct Hname as [Hne Hname].
  rewrite IH by done. by rewrite lookup_insert_ne.
Qed.

Lemma scaledDown_lookup oldISs : ∀ ks m,
  NoDup (isName <$> oldISs) → length ks = length oldISs →
  Forall2 (λ ms k, scaledDown oldISs ks m !! isName ms = Some (Int32.sub (isReplicas ms) k))
          oldISs ks.
Proof.
  induction oldISs as [|ms oldISs IH]; intros [|k ks] m Hnodup Hlen; simpl in *;
    try done; try by constructor.
  rewrite NoDup_cons in Hnodup. destruct Hnodup as [Hfresh Hnodup].
  constructor.
  - rewrite scaledDown_lookup_other by done. by rewrite lookup_insert_eq.
  - apply IH; [done|lia].
Qed.

Lemma total_cons k ks : total (k :: ks) = k + total ks.
Proof. done. Qed.

Lemma total_app ks1 ks2 : total (ks1 ++ ks2) = total ks1 + total ks2.
Proof.
  induction ks1 as [|k ks1 IH]; [done|].
  rewrite <- app_comm_cons, !total_cons. lia.
Qed.

Lemma GetReplicaCountForMachineSets_wrap machineSets :
  GetReplicaCountForMachineSets machineSets = Int32.wrap (total (isReplicas <$> machineSets)).
Proof.
  unfold GetReplicaCountForMachineSets.
  assert (H : ∀ acc, Int32.in_range acc →
    foldl (λ total ms, Int32.add total (isReplicas ms)) acc machineSets =
    Int32.wrap (acc + total (isReplicas <$> machineSets))).
  { induction machineSets as [|ms machineSets IH]; intros acc Hacc.
    - simpl. by rewrite Z.add_0_r, wrap_id.
    - rewrite fmap_cons, total_cons. cbn [foldl].
      rewrite IH by apply add_in_range. unfold Int32.add. rewrite wrap_add_l.
      f_equal. lia. }
  rewrite H by int32_lia. by rewrite Z.add_0_l.
Qed.

(** The sizes written to the old machine sets, up to wrap-around. *)
Lemma total_scaled_down (size : MachineSet → Z) oldISs ks :
  Forall2 (λ ms k, size ms = Int32.sub (isReplicas ms) k) oldISs ks →
  ∀ x, Int32.wrap (total (size <$> oldISs) + x) =
       Int32.wrap (total (isReplicas <$> oldISs) - total ks + x).
Proof.
  induction 1 as [|ms k oldISs ks Hsize _ IH]; intros x; [done|].
  rewrite !fmap_cons, !total_cons, Hsize. unfold Int32.sub.
  rewrite <- !Z.add_assoc, wrap_add_l.
  replace (isReplicas ms - k + (total (size <$> oldISs) + x))
    with (total (size <$> oldISs) + (x + isReplicas ms - k)) by lia.
  rewrite IH. f_equal. lia.
Qed.

Lemma total_conserved (size : MachineSet → Z) oldISs newIS moved :
  Forall2 (λ ms k, size ms = Int32.sub (isReplicas ms) k) oldISs moved →
  size newIS = Int32.add (isReplicas newIS) (total moved) →
  Int32.wrap (total (size <$> oldISs ++ [newIS])) =
  Int32.wrap (total (isReplicas <$> oldISs ++ [newIS])).
Proof.
  intros Hold Hnew. rewrite !fmap_app, !total_app, !fmap_cons, !fmap_nil, !total_cons.
  rewrite (total_scaled_down size oldISs moved Hold), Hnew.
  unfold Int32.add. rewrite !Z.add_0_r, wrap_add_r. f_equal. lia.
Qed.

(** *** The machines moved out of each old machine set *)

Lemma getMachineFromNode_elem machines node machine :
  getMachineFromNode machines node = Some machine → machine ∈ machines.
Proof.
  unfold getMachineFromNode.
  destruct (list_find _ machines) as [[i m]|] eqn:Hfind; [|done].
  simpl. intros [= <-]. apply list_find_Some in Hfind as (Hi & _).
  by eapply list_elem_of_lookup_2.
Qed.

Section TransferredOut.
Context (c : Cluster) (newIS : MachineSet) (d : MachineDeployment).

(** When the loop over the nodes runs to its end, each of its calls went
    through, and each machine it patched is one of the listing. *)
Lemma transferNodes_next ms machines nodes : ∀ w t a w' t' a',
  transferNodes c w newIS ms d machines nodes t a = (w', Next (t', a')) →
  ∃ calls, performed w w' calls ∧ Forall (movesOneOf machines) calls.
Proof.
  induction nodes as [|node nodes IH]; intros w t a w' t' a'; cbn [transferNodes].
  { intros [= <- <- <-]. exists []. split; [done|apply Forall_nil_2]. }
  destruct (getMachineFromNode machines node) as [machine|] eqn:Hfind; [|by apply IH].
  apply getMachineFromNode_elem in Hfind.
  unfold machineControl_PatchMachine.
  destruct (invoke c w _) as [w1 err] eqn:Hpatch.
  apply invoke_performed in Hpatch as (r & -> & Hp1 & _).
  destruct r as [e|]; cbn [fmap option_fmap option_map].
  { destruct (scaleMachineSetAndRecordEvent c w1 newIS _ d) as [w2 [scaled [err2|]]];
      [by intros [=]|].
    by destruct (scaleMachineSetAndRecordEvent c w2 ms _ d) as [w3 [scaled3 [err3|]]];
      intros [=]. }
  destruct (invoke c w1 _) as [w2 err] eqn:Hnode.
  apply invoke_performed in Hnode as (r2 & -> & Hp2 & _).
  destruct r2 as [e2|]; cbn [fmap option_fmap option_map]; [by intros [=]|].
  intros Hrun. apply IH in Hrun as (calls & Hp & Hcalls).
  eexists. split.
  { exact (performed_trans _ _ _ _ _ (performed_trans _ _ _ _ _ Hp1 Hp2) Hp). }
  apply Forall_app. split; [done|].
  apply Forall_cons_2; [by split|]. apply Forall_singleton. split; [done|].
  simpl. by exists machine.
Qed.

(** When the loop over the old machine sets runs to its end, it has gone
    through them one by one as [transferredOut] says, and every old
    machine set is scaled down by the machines moved out of it. *)
Lemma transferMachineSets_next oldISs : ∀ w a w' a',
  Int32.in_range a →
  transferMachineSets c w newIS d oldISs a = (w', Next a') →
  ∃ evs moved,
    performed w w' evs ∧ patched evs = total moved ∧
    transferredOut c (trace w) oldISs moved (trace w') ∧
    length moved = length oldISs ∧ Forall (λ k, 0 <= k) moved ∧
    a' = Int32.wrap (a + total moved) ∧
    scaledTo w' = scaledDown oldISs moved (scaledTo w).
Proof.
  induction oldISs as [|ms oldISs IH]; intros w a w' a' Ha; cbn [transferMachineSets].
  { intros [= <- <-]. exists [], []. rewrite patched_nil. simpl.
    rewrite Z.add_0_r, wrap_id by done.
    split_and!; first [done|constructor]. }
  rewrite machineLister_List_result.
  destruct (fault c (trace w) (MachineList (isSelector ms))) as [e1|]; [by intros [=]|].
  unfold nodeLister_List, call. cbn [trace scaledTo].
  destruct (fault c _ (NodeList _)) as [e2|]; [by intros [=]|].
  match goal with
  | |- context [transferNodes c ?w2 newIS ms d ?machines ?nodes 0 a] =>
      assert (Hp0 : performed w w2
                [(NodeList {[LabelKeyMachineUpdateSuccessful := "true"]}, @None RemoteError);
                 (MachineList (isSelector ms), None)]) by done;
      assert (Hs0 : scaledTo w2 = scaledTo w) by done;
      destruct (transferNodes c w2 newIS ms d machines nodes 0 a)
        as [w3 [[t1 a1]|r]] eqn:Hnodes; [|by intros [=]];
      pose proof Hnodes as Hnodes'
  end.
  apply transferNodes_spec in Hnodes as (evs1 & Hp1 & _ & Hs3 & _ & -> & ->);
    [|int32_lia|done].
  apply transferNodes_next in Hnodes' as (calls & Hp1' & Hcalls).
  rewrite <- (performed_unique _ _ _ _ Hp1 Hp1') in Hcalls. clear Hp1' calls.
  rewrite Z.add_0_l.
  destruct (scaleMachineSetAndRecordEvent c w3 ms _ d) as [w4 [scaled err]] eqn:Hdown.
  apply scaleMachineSetAndRecordEvent_performed in Hdown as (r4 & Hp4 & -> & Hr4).
  destruct r4 as [e4|]; cbn [fmap option_fmap option_map]; [by intros [=]|].
  destruct Hr4 as [Hs4 _]. intros Hrest.
  apply IH in Hrest as (evs & moved & Hp5 & Hpatched & Htr & Hlen & Hnn & -> & Hstore);
    [|apply wrap_in_range].
  pose proof (performed_trans _ _ _ _ _
                (performed_trans _ _ _ _ _ (performed_trans _ _ _ _ _ Hp0 Hp1) Hp4) Hp5)
    as Hp.
  eexists _, (patched evs1 :: moved). split; [exact Hp|].
  pose proof (patched_nonneg evs1) as Hnn1.
  split_and!.
  - count_patched. rewrite total_cons. lia.
  - apply transferredOut_cons; [done|].
    unfold performed in Hp0, Hp1, Hp4. rewrite Hp4, Hp1, Hp0 in Htr.
    unfold Int32.sub in Htr. rewrite wrap_sub_r in Htr. exact Htr.
  - simpl. by rewrite Hlen.
  - by apply Forall_cons_2.
  - rewrite total_cons, wrap_add_l. f_equal. lia.
  - rewrite Hstore, Hs4, Hs3, Hs0. simpl. do 2 f_equal.
    unfold Int32.sub. by rewrite wrap_sub_r.
Qed.

End TransferredOut.

(** C1.  A pass of [reconcileNewMachineSetInPlace] on a new machine set
    below the deployment's replica count that returns without an error
    leaves the sum of the desired replicas of the old and the new machine
    sets as it was.  The pass goes through the old machine sets one by
    one: for each it lists the machines of its selector, patches machines
    of that listing only, and scales this machine set down by the number
    [k] of the machines it has patched, which are the machines moved out
    of it; at the end the new machine set is scaled up by the total of
    these numbers, which is the number of ownership patches of the pass.
    Sizes are [int32], and the sum is the one
    [GetReplicaCountForMachineSets] computes.  The machine sets have
    distinct names and the pass starts from their current sizes. *)
Theorem reconcileNewMachineSetInPlace_conserves c w oldISs newIS deployment w' scaled :
  isReplicas newIS < dReplicas deployment →
  NoDup (isName <$> oldISs ++ [newIS]) →
  Forall (λ ms, stored w ms = ms) (oldISs ++ [newIS]) →
  reconcileNewMachineSetInPlace c w oldISs newIS deployment = (w', (scaled, None)) →
  ∃ evs moved tr,
    performed w w' evs ∧
    transferredOut c (trace w) oldISs moved tr ∧
    trace w' =
      (MachineSetUpdate (isName newIS) (Int32.add (isReplicas newIS) (total moved)), None)
        :: tr ∧
    Forall2 (λ ms k, isReplicas (stored w' ms) = Int32.sub (isReplicas ms) k) oldISs moved ∧
    isReplicas (stored w' newIS) = Int32.add (isReplicas newIS) (total moved) ∧
    Forall (λ k, 0 <= k) moved ∧ total moved = patched evs ∧
    GetReplicaCountForMachineSets (stored w' <$> oldISs ++ [newIS]) =
    GetReplicaCountForMachineSets (stored w <$> oldISs ++ [newIS]) ∧
    (Int32.in_range (total (isReplicas <$> (stored w' <$> oldISs ++ [newIS]))) →
     Int32.in_range (total (isReplicas <$> (stored w <$> oldISs ++ [newIS]))) →
     total (isReplicas <$> (stored w' <$> oldISs ++ [newIS])) =
     total (isReplicas <$> (stored w <$> oldISs ++ [newIS]))).
Proof.
  intros Hunder Hnodup Hcurrent. unfold reconcileNewMachineSetInPlace.
  rewrite bool_decide_false by lia. rewrite bool_decide_false by lia.
  destruct (transferMachineSets c w newIS deployment oldISs 0) as [w1 [a|r]] eqn:Hloop.
  2:{ intros [= <- ->]. pose proof Hloop as Hloop'.
      apply transferMachineSets_spec in Hloop' as (evs1 & _ & _ & [[e He] _]); [done|].
      int32_lia. }
  apply transferMachineSets_next in Hloop
    as (evs1 & moved & Hp1 & Htotal & Htr & Hlen & Hmoved & -> & Hstore); [|int32_lia].
  rewrite Z.add_0_l.
  destruct (scaleMachineSetAndRecordEvent c w1 newIS _ deployment) as [w2 [b err]] eqn:Hup.
  apply scaleMachineSetAndRecordEvent_performed in Hup as (r & Hp2 & -> & Hr).
  destruct r as [e|]; [done|]. destruct Hr as [Hstore2 _]. intros [= <- <-].
  rewrite fmap_app, NoDup_app in Hnodup. destruct Hnodup as (Hnodup & Hnew & _).
  assert (Hnew' : isName newIS ∉ isName <$> oldISs).
  { intros Hin. apply (Hnew _ Hin). simpl. apply list_elem_of_here. }
  assert (Hold : Forall2 (λ ms k, isReplicas (stored w2 ms) = Int32.sub (isReplicas ms) k)
                   oldISs moved).
  { pose proof (scaledDown_lookup oldISs moved (scaledTo w) Hnodup Hlen) as Hlook.
    apply Forall2_same_length_lookup_2; [by apply Forall2_length in Hlook|].
    intros i ms k Hms Hk.
    pose proof (Forall2_lookup_lr _ _ _ _ _ _ Hlook Hms Hk) as Hl. simpl in Hl.
    unfold stored. simpl. rewrite Hstore2, lookup_insert_ne.
    - by rewrite Hstore, Hl.
    - intros Heq. apply Hnew'. rewrite Heq. apply list_elem_of_fmap_2.
      by eapply list_elem_of_lookup_2. }
  assert (Hnewsize : isReplicas (stored w2 newIS) =
                     Int32.add (isReplicas newIS) (total moved)).
  { unfold stored. simpl. rewrite Hstore2, lookup_insert_eq. simpl.
    unfold Int32.add. by rewrite wrap_add_r. }
  eexists _, moved, (trace w1). split; [exact (performed_trans _ _ _ _ _ Hp1 Hp2)|].
  split; [done|].
  split. { unfold performed in Hp2. rewrite Hp2. simpl. do 3 f_equal.
           unfold Int32.add. by rewrite wrap_add_r. }
  split; [done|]. split; [done|]. split; [done|].
  split; [by count_patched; lia|].
  assert (Hsum : Int32.wrap (total (isReplicas <$> (stored w2 <$> oldISs ++ [newIS]))) =
                 Int32.wrap (total (isReplicas <$> (stored w <$> oldISs ++ [newIS])))).
  { rewrite <- !list_fmap_compose.
    rewrite (total_conserved (isReplicas ∘ stored w2) oldISs newIS moved Hold Hnewsize).
    f_equal. f_equal. apply Forall_fmap_ext_1.
    eapply Forall_impl; [exact Hcurrent|]. intros ms Hms. unfold compose. by rewrite Hms. }
  split; [by rewrite !GetReplicaCountForMachineSets_wrap|].
  intros Hafter Hbefore. by rewrite !wrap_id in Hsum.
Qed.

Lemma reconcileNewMachineSetInPlace_conserves_witness :
  let c := Examples.still Examples.workers [Examples.updatedNode "n1"] Examples.noFaults in
  let w' := (reconcileNewMachineSetInPlace c Examples.start [Examples.oldIS] Examples.newIS
               Examples.deployment).1 in
  ∃ evs moved tr,
    performed Examples.start w' evs ∧
    transferredOut c (trace Examples.start) [Examples.oldIS] moved tr ∧
    trace w' =
      (MachineSetUpdate (isName Examples.newIS)
         (Int32.add (isReplicas Examples.newIS) (total moved)), None) :: tr ∧
    Forall2 (λ ms k, isReplicas (stored w' ms) = Int32.sub (isReplicas ms) k)
            [Examples.oldIS] moved ∧
    isReplicas (stored w' Examples.newIS) = Int32.add (isReplicas Examples.newIS) (total moved) ∧
    Forall (λ k, 0 <= k) moved ∧ total moved = patched evs ∧
    GetReplicaCountForMachineSets (stored w' <$> [Examples.oldIS] ++ [Examples.newIS]) =
    GetReplicaCountForMachineSets (stored Examples.start <$> [Examples.oldIS] ++ [Examples.newIS]) ∧
    (Int32.in_range (total (isReplicas <$> (stored w' <$> [Examples.oldIS] ++ [Examples.newIS]))) →
     Int32.in_range (total (isReplicas <$>
                              (stored Examples.start <$> [Examples.oldIS] ++ [Examples.newIS]))) →
     total (isReplicas <$> (stored w' <$> [Examples.oldIS] ++ [Examples.newIS])) =
     total (isReplicas <$> (stored Examples.start <$> [Examples.oldIS] ++ [Examples.newIS]))).
Proof.
  apply (reconcileNewMachineSetInPlace_conserves
           (Examples.still Examples.workers [Examples.updatedNode "n1"] Examples.noFaults)
           Examples.start [Examples.oldIS] Examples.newIS Examples.deployment _ true).
  - by vm_compute.
  - apply (bool_decide_unpack _). by vm_compute.
  - apply (bool_decide_unpack _). by vm_compute.
  - by vm_compute.
Defined.

(** The second scenario of the specification: the node of one machine is
    update-successful; the old machine set goes from 5 to 4, the new one
    from 0 to 1, and the node is uncordoned. *)
Example reconcileNewMachineSetInPlace_one_transfer :
  let c := Examples.still Examples.workers [Examples.updatedNode "n1"] Examples.noFaults in
  let run := reconcileNewMachineSetInPlace c Examples.start [Examples.oldIS] Examples.newIS
               Examples.deployment in
  run.2 = (true, None) ∧
  isReplicas (stored run.1 Examples.oldIS) = 4 ∧
  isReplicas (stored run.1 Examples.newIS) = 1 ∧
  trace run.1 !! 2%nat = Some (ControlNodeUpdate (uncordoned (Examples.updatedNode "n1")), None).
Proof. by vm_compute. Qed.

(** The third scenario of the specification: of three machines whose
    nodes are update-successful the patch of the third is refused; the new
    machine set is scaled up by 2, the old one down by 2, and the error of
    the patch is returned. *)
Example reconcileNewMachineSetInPlace_two_of_three :
  let c := Examples.still Examples.workers
             [Examples.updatedNode "n1"; Examples.updatedNode "n2"; Examples.updatedNode "n3"]
             (Examples.refusePatch "m3") in
  let run := reconcileNewMachineSetInPlace c Examples.start [Examples.oldIS] Examples.newIS
               Examples.deployment in
  run.2 = (true, Some (Remote (ServerError "patch refused"))) ∧
  isReplicas (stored run.1 Examples.oldIS) = 3 ∧
  isReplicas (stored run.1 Examples.newIS) = 2.
Proof. by vm_compute. Qed.

(** C5.  The claim is that a failed compensation never hides the error
    of the patch.  Here the first machine is moved, the patch of the
    second is refused, and the scaling up of the new machine set to the
    one replica already added is refused as well: the pass returns the
    error of the scaling, not that of the patch, with the flag set.  The
    latest two calls are the refused scaling and, before it, the refused
    patch. *)
Lemma reconcileNewMachineSetInPlace_compensation_error :
  let c := Examples.still Examples.workers
             [Examples.updatedNode "n1"; Examples.updatedNode "n2"] Examples.transferFaults in
  let run := reconcileNewMachineSetInPlace c Examples.start [Examples.oldIS] Examples.newIS
               Examples.deployment in
  run.2 = (true, Some (Remote (ServerError "scale refused"))) ∧
  ∃ patch,
    take 2 (trace run.1) =
      [(MachineSetUpdate "new" 1, Some (ServerError "scale refused"));
       (PatchMachine "shoot" "m2" patch, Some (ServerError "patch refused"))].
Proof. split; [by vm_compute|]. eexists. by vm_compute. Qed.

(** The sibling path: when the scaling up goes through and the scaling
    down of the old machine set is refused, the pass returns the error of
    the patch. *)
Example reconcileNewMachineSetInPlace_scale_down_refused :
  let c := Examples.still Examples.workers
             [Examples.updatedNode "n1"; Examples.updatedNode "n2"]
             Examples.scaleDownFaults in
  let run := reconcileNewMachineSetInPlace c Examples.start [Examples.oldIS] Examples.newIS
               Examples.deployment in
  run.2 = (true, Some (Remote (ServerError "patch refused"))) ∧
  ∃ patch,
    take 3 (trace run.1) =
      [(MachineSetUpdate "old" 4, Some (ServerError "scale refused"));
       (MachineSetUpdate "new" 1, None);
       (PatchMachine "shoot" "m2" patch, Some (ServerError "patch refused"))].
Proof. split; [by vm_compute|]. eexists. by vm_compute. Qed.

(** ** The budget gate *)

Lemma getMachinesUndergoingUpdate_performed c oldISs : ∀ w n w' r,
  getMachinesUndergoingUpdate_loop c w oldISs n = (w', r) →
  ∃ evs, performed w w' evs ∧ scaledTo w' = scaledTo w ∧
         Forall (λ e, isPatch e = false ∧ isScale e = false) evs.
Proof.
  induction oldISs as [|ms oldISs IH]; intros w n w' r; cbn [getMachinesUndergoingUpdate_loop].
  { intros [= <- <-]. exists []. split_and!; [done|done|apply Forall_nil_2]. }
  destruct (machineLister_List c w _) as [w1 [machines err]] eqn:Hl.
  apply machineLister_List_error in Hl as (r1 & Hp1 & Hs1 & ->).
  destruct r1 as [e|]; cbn [fmap option_fmap option_map].
  { intros [= <- <-]. eexists. split_and!; [exact Hp1|done|calls_ok]. }
  intros Hrest. apply IH in Hrest as (evs & Hp & Hs & Hquiet).
  eexists. split_and!; [exact (performed_trans _ _ _ _ _ Hp1 Hp)|congruence|calls_ok].
Qed.

(** C3.  When the machines undergoing update could be counted and
    [maxUpdatePossible] is not positive, [reconcileOldMachineSetsInPlace]
    returns [(false, nil)]; none of its calls patches a machine or scales a
    machine set, and no replica count changes. *)
Theorem reconcileOldMachineSetsInPlace_budget_gate c w allISs oldISs newIS deployment
    w1 undergoing :
  getMachinesUndergoingUpdate c w oldISs = (w1, (undergoing, None)) →
  maxUpdatePossible c allISs newIS deployment undergoing <= 0 →
  ∃ w' evs,
    reconcileOldMachineSetsInPlace c w allISs oldISs newIS deployment = (w', Done (false, None)) ∧
    performed w w' evs ∧ scaledTo w' = scaledTo w ∧
    Forall (λ e, isPatch e = false ∧ isScale e = false) evs.
Proof.
  intros Hcount Hgate. unfold reconcileOldMachineSetsInPlace.
  case_bool_decide.
  { exists w, []. split_and!; [done|done|done|apply Forall_nil_2]. }
  rewrite Hcount. rewrite bool_decide_true by done.
  apply getMachinesUndergoingUpdate_performed in Hcount as (evs & Hp & Hs & Hquiet).
  by exists w1, evs.
Qed.

Lemma reconcileOldMachineSetsInPlace_budget_gate_witness :
  let c := Examples.still Examples.workers [] Examples.noFaults in
  ∃ w' evs,
    reconcileOldMachineSetsInPlace c Examples.start [Examples.oldIS4; Examples.newIS1]
      [Examples.oldIS4] Examples.newIS1 Examples.deployment = (w', Done (false, None)) ∧
    performed Examples.start w' evs ∧ scaledTo w' = scaledTo Examples.start ∧
    Forall (λ e, isPatch e = false ∧ isScale e = false) evs.
Proof.
  apply (reconcileOldMachineSetsInPlace_budget_gate
           (Examples.still Examples.workers [] Examples.noFaults) Examples.start
           [Examples.oldIS4; Examples.newIS1] [Examples.oldIS4] Examples.newIS1
           Examples.deployment
           (getMachinesUndergoingUpdate (Examples.still Examples.workers [] Examples.noFaults)
              Examples.start [Examples.oldIS4]).1 0).
  - by vm_compute.
  - by vm_compute.
Defined.

(** ** One kind of progress in a pass *)

(** C4 as stated fails: the ownership transfer can report progress and
    an error at once.  Of three machines whose nodes are update-successful
    the ownership patch of the third is refused: the transfer returns the flag set
    together with the error of the patch, and both orchestrators return
    that error from the state the transfer left, without a sync of the
    rollout status. *)
Lemma rollout_progress_with_error :
  let c := Examples.still Examples.workers
             [Examples.updatedNode "n1"; Examples.updatedNode "n2"; Examples.updatedNode "n3"]
             (Examples.refuseTransfer "m3") in
  let d := Examples.deployment in
  let isList := [Examples.newIS; Examples.oldIS] in
  let refused := Remote (ServerError "patch refused") in
  let auto := (prepareAutoInPlace c Examples.start d isList).1 in
  let manual := (prepareManualInPlace c Examples.start d isList).1 in
  let auto' := reconcileNewMachineSetInPlace c auto [Examples.oldIS] Examples.newIS d in
  let manual' := reconcileNewMachineSetInPlace c manual [Examples.oldIS] Examples.newIS d in
  auto'.2 = (true, Some refused) ∧
  rolloutAutoInPlace c Examples.start d isList = (auto'.1, Done (Some refused)) ∧
  Forall (λ e, e.1 ≠ SyncRolloutStatus (dName d))
         (trace (rolloutAutoInPlace c Examples.start d isList).1) ∧
  manual'.2 = (true, Some refused) ∧
  rolloutManualInPlace c Examples.start d isList = (manual'.1, Some refused) ∧
  Forall (λ e, e.1 ≠ SyncRolloutStatus (dName d))
         (trace (rolloutManualInPlace c Examples.start d isList).1).
Proof.
  split_and!; try (by vm_compute).
  - vm_compute. repeat (apply Forall_cons_2; [by intros [=]|]). apply Forall_nil_2.
  - vm_compute. repeat (apply Forall_cons_2; [by intros [=]|]). apply Forall_nil_2.
Qed.

(** C4, as amended.  In both orchestrators, when the ownership transfer
    reports progress without an error, the pass makes one more call, the
    sync of the rollout status, and returns what that returns: the
    selection of machines for update does not run.  When the transfer
    returns an error, with the progress flag or without it, the pass
    returns that error from the state the transfer left: neither the
    selection nor the sync of the rollout status runs. *)
Theorem rollout_transfer_ends_pass c d isList :
  (∀ w w1 w2 newIS oldISs scaledUp err,
     prepareAutoInPlace c w d isList = (w1, Next (newIS, oldISs)) →
     reconcileNewMachineSetInPlace c w1 oldISs newIS d = (w2, (scaledUp, err)) →
     match err with
     | Some e => rolloutAutoInPlace c w d isList = (w2, Done (Some e))
     | None =>
         scaledUp = true →
         ∃ w3 r, rolloutAutoInPlace c w d isList = (w3, Done (Remote <$> r)) ∧
                 performed w2 w3 [(SyncRolloutStatus (dName d), r)] ∧
                 scaledTo w3 = scaledTo w2
     end) ∧
  (∀ w w1 w2 newIS oldISs scaledUp err,
     prepareManualInPlace c w d isList = (w1, Next (newIS, oldISs)) →
     reconcileNewMachineSetInPlace c w1 oldISs newIS d = (w2, (scaledUp, err)) →
     match err with
     | Some e => rolloutManualInPlace c w d isList = (w2, Some e)
     | None =>
         scaledUp = true →
         ∃ w3 r, rolloutManualInPlace c w d isList = (w3, Remote <$> r) ∧
                 performed w2 w3 [(SyncRolloutStatus (dName d), r)] ∧
                 scaledTo w3 = scaledTo w2
     end).
Proof.
  split; intros w w1 w2 newIS oldISs scaledUp err Hprepare Htransfer.
  - unfold rolloutAutoInPlace. rewrite Hprepare, Htransfer.
    destruct err as [e|]; [done|]. intros ->.
    unfold syncRolloutStatus.
    destruct (invoke c w2 _) as [w3 err] eqn:Hsync.
    apply invoke_performed in Hsync as (r & -> & Hp & Hs). by exists w3, r.
  - unfold rolloutManualInPlace. rewrite Hprepare, Htransfer.
    destruct err as [e|]; [done|]. intros ->.
    unfold syncRolloutStatus.
    destruct (invoke c w2 _) as [w3 err] eqn:Hsync.
    apply invoke_performed in Hsync as (r & -> & Hp & Hs). by exists w3, r.
Qed.

Lemma rollout_transfer_ends_pass_witness :
  let c := Examples.still Examples.workers [Examples.updatedNode "n1"] Examples.noFaults in
  let d := Examples.deployment in
  let isList := [Examples.newIS; Examples.oldIS] in
  let auto := (prepareAutoInPlace c Examples.start d isList).1 in
  let manual := (prepareManualInPlace c Examples.start d isList).1 in
  let auto' := (reconcileNewMachineSetInPlace c auto [Examples.oldIS] Examples.newIS d).1 in
  let manual' := (reconcileNewMachineSetInPlace c manual [Examples.oldIS] Examples.newIS d).1 in
  (∃ w3 r, rolloutAutoInPlace c Examples.start d isList = (w3, Done (Remote <$> r)) ∧
           performed auto' w3 [(SyncRolloutStatus (dName d), r)] ∧
           scaledTo w3 = scaledTo auto') ∧
  (∃ w3 r, rolloutManualInPlace c Examples.start d isList = (w3, Remote <$> r) ∧
           performed manual' w3 [(SyncRolloutStatus (dName d), r)] ∧
           scaledTo w3 = scaledTo manual').
Proof.
  pose proof (rollout_transfer_ends_pass
                (Examples.still Examples.workers [Examples.updatedNode "n1"] Examples.noFaults)
                Examples.deployment [Examples.newIS; Examples.oldIS]) as [Hauto Hmanual].
  intros c d isList auto manual auto' manual'. split.
  - apply (Hauto Examples.start auto auto' Examples.newIS [Examples.oldIS] true None);
      by vm_compute.
  - apply (Hmanual Examples.start manual manual' Examples.newIS [Examples.oldIS] true None);
      by vm_compute.
Defined.

(** ** Nodes that are not found *)

Section NotFound.
Context (c : Cluster).

Lemma labelCandidates_node_not_found w machine machines w1 w2 err :
  labelValue (mLabels machine) NodeLabelKey ≠ "" →
  machineControl_PatchMachine c w (mNamespace machine) (mName machine)
    (LabelsPatch (MergeStringMaps (mLabels machine)
                    {[ LabelKeyMachineCandidateForUpdate := "true" ]})) = (w1, None) →
  nodeLister_Get c w1 (labelValue (mLabels machine) NodeLabelKey) = (w2, inl err) →
  IsNotFound err = true →
  labelCandidates c w (machine :: machines) = labelCandidates c w2 machines.
Proof.
  intros Hnode Hpatch Hget Hnotfound. cbn [labelCandidates].
  rewrite bool_decide_true by done. by rewrite Hpatch, Hget, Hnotfound.
Qed.

Lemma labelMarked_node_not_found w machine machines marked w1 err :
  labelValue (mLabels machine) NodeLabelKey ≠ "" →
  targetNodes_Get c w (labelValue (mLabels machine) NodeLabelKey) = (w1, inl err) →
  labelMarked c w (machine :: machines) marked = labelMarked c w1 machines marked.
Proof.
  intros Hnode Hget. cbn [labelMarked].
  rewrite bool_decide_true by done. by rewrite Hget.
Qed.

Context (Honly : onlyNodesNotFound c).

Lemma call_goes_through w k :
  (∀ name, k ≠ NodeGet name ∧ k ≠ TargetNodeGet name) → (call c w k).2 = None.
Proof.
  intros Hk. unfold call. simpl. destruct (fault c (trace w) k) as [e|] eqn:Hf; [|done].
  apply Honly in Hf as (name & [->| ->] & _); by destruct (Hk name).
Qed.

Lemma invoke_goes_through w k :
  (∀ name, k ≠ NodeGet name ∧ k ≠ TargetNodeGet name) → (invoke c w k).2 = None.
Proof.
  intros Hk. unfold invoke. pose proof (call_goes_through w k Hk) as Hc.
  destruct (call c w k) as [w' r]. simpl in Hc. by subst.
Qed.

Lemma machineLister_List_goes_through w selector :
  (machineLister_List c w selector).2.2 = None.
Proof.
  unfold machineLister_List. pose proof (call_goes_through w (MachineList selector)) as Hc.
  destruct (call c w _) as [w' r]. simpl in Hc. by rewrite Hc.
Qed.

Lemma nodeLister_Get_not_found w name w' err :
  nodeLister_Get c w name = (w', inl err) → IsNotFound err = true.
Proof.
  unfold nodeLister_Get, call. destruct (fault c (trace w) _) as [e|] eqn:Hf.
  - apply Honly in Hf as (name' & _ & ->). by intros [= <- <-].
  - destruct (findNode _ _); [done|]. by intros [= <- <-].
Qed.

Lemma labelCandidates_goes_through machines : ∀ w,
  ∃ w', labelCandidates c w machines = (w', Next ()).
Proof.
  induction machines as [|machine machines IH]; intros w; cbn [labelCandidates]; [by eexists|].
  case_bool_decide; [|done].
  unfold machineControl_PatchMachine.
  pose proof (invoke_goes_through w (PatchMachine (mNamespace machine) (mName machine)
    (LabelsPatch (MergeStringMaps (mLabels machine)
                    {[ LabelKeyMachineCandidateForUpdate := "true" ]})))) as Hpatch.
  destruct (invoke c w _) as [w1 err]. simpl in Hpatch. rewrite Hpatch by done.
  destruct (nodeLister_Get c w1 _) as [w2 [err'|node]] eqn:Hget.
  { apply nodeLister_Get_not_found in Hget. by rewrite Hget. }
  case_bool_decide; [done|].
  pose proof (invoke_goes_through w2
    (TargetNodeUpdate (withNodeLabel node LabelKeyMachineCandidateForUpdate "true"))) as Hupdate.
  destruct (invoke c w2 _) as [w3 err']. simpl in Hupdate. by rewrite Hupdate.
Qed.

Lemma labelNodesBackingMachineSets_goes_through machineSets label : ∀ w,
  (labelNodesBackingMachineSets c w machineSets label).2 = None.
Proof.
  induction machineSets as [|[machineSet|] machineSets IH]; intros w;
    cbn [labelNodesBackingMachineSets]; [done| |done].
  pose proof (machineLister_List_goes_through w (isSelector machineSet)) as Hl.
  destruct (machineLister_List c w _) as [w1 [machines err]]. simpl in Hl. subst err.
  destruct (labelCandidates_goes_through machines w1) as [w2 ->]. apply IH.
Qed.

Lemma labelMarked_goes_through machines : ∀ w marked,
  ∃ w' marked', labelMarked c w machines marked = (w', Next marked').
Proof.
  induction machines as [|machine machines IH]; intros w marked; cbn [labelMarked];
    [by eexists _, _|].
  case_bool_decide; [|done].
  destruct (targetNodes_Get c w _) as [w1 [err|node]]; [done|].
  case_bool_decide; [done|].
  unfold machineControl_PatchMachine.
  pose proof (invoke_goes_through w1 (PatchMachine (mNamespace machine) (mName machine)
    (LabelsPatch (MergeStringMaps (mLabels machine)
                    {[ LabelKeyMachineSelectedForUpdate := "true" ]})))) as Hpatch.
  destruct (invoke c w1 _) as [w2 err]. simpl in Hpatch. by rewrite Hpatch.
Qed.

Lemma getAndLabelMachinesSelectedForUpdate_goes_through iSs : ∀ w marked,
  (getAndLabelMachinesSelectedForUpdate_loop c w iSs marked).2.2 = None.
Proof.
  induction iSs as [|ms iSs IH]; intros w marked;
    cbn [getAndLabelMachinesSelectedForUpdate_loop]; [done|].
  case_bool_decide; [done|].
  pose proof (machineLister_List_goes_through w (isSelector ms)) as Hl.
  destruct (machineLister_List c w _) as [w1 [machines err]]. simpl in Hl. subst err.
  destruct (labelMarked_goes_through machines w1 marked) as (w2 & marked' & ->). apply IH.
Qed.

End NotFound.

(** C9.  A node lookup that returns not-found makes
    [labelNodesBackingMachineSets] and
    [getAndLabelMachinesSelectedForUpdate] go on with the next machine: the
    rest of the machines is processed from the state the lookup left.  And
    when node lookups that return not-found are the only calls that fail,
    neither function returns an error. *)
Theorem node_not_found_is_skipped c :
  (∀ w machine machines w1 w2 err,
     labelValue (mLabels machine) NodeLabelKey ≠ "" →
     machineControl_PatchMachine c w (mNamespace machine) (mName machine)
       (LabelsPatch (MergeStringMaps (mLabels machine)
                       {[ LabelKeyMachineCandidateForUpdate := "true" ]})) = (w1, None) →
     nodeLister_Get c w1 (labelValue (mLabels machine) NodeLabelKey) = (w2, inl err) →
     IsNotFound err = true →
     labelCandidates c w (machine :: machines) = labelCandidates c w2 machines) ∧
  (∀ w machine machines marked w1 err,
     labelValue (mLabels machine) NodeLabelKey ≠ "" →
     targetNodes_Get c w (labelValue (mLabels machine) NodeLabelKey) = (w1, inl err) →
     IsNotFound err = true →
     labelMarked c w (machine :: machines) marked = labelMarked c w1 machines marked) ∧
  (onlyNodesNotFound c →
   ∀ w machineSets label iSs,
     (labelNodesBackingMachineSets c w machineSets label).2 = None ∧
     (getAndLabelMachinesSelectedForUpdate c w iSs).2.2 = None).
Proof.
  split; [|split].
  - intros. by eapply labelCandidates_node_not_found.
  - intros. by eapply labelMarked_node_not_found.
  - intros Honly w machineSets label iSs. split.
    + by apply labelNodesBackingMachineSets_goes_through.
    + by apply getAndLabelMachinesSelectedForUpdate_goes_through.
Qed.

Lemma node_not_found_is_skipped_witness :
  let c := Examples.still Examples.workers [] Examples.noFaults in
  let m1 := Examples.worker "m1" "n1" in
  let rest := [Examples.worker "m2" "n2"] in
  let patched1 :=
    (machineControl_PatchMachine c Examples.start (mNamespace m1) (mName m1)
       (LabelsPatch (MergeStringMaps (mLabels m1)
                       {[ LabelKeyMachineCandidateForUpdate := "true" ]}))).1 in
  let looked := (nodeLister_Get c patched1 "n1").1 in
  let looked' := (targetNodes_Get c Examples.start "n1").1 in
  labelCandidates c Examples.start (m1 :: rest) = labelCandidates c looked rest ∧
  labelMarked c Examples.start (m1 :: rest) false = labelMarked c looked' rest false ∧
  (labelNodesBackingMachineSets c Examples.start [Some Examples.oldIS] ∅).2 = None ∧
  (getAndLabelMachinesSelectedForUpdate c Examples.start [Examples.oldIS]).2.2 = None.
Proof.
  intros c m1 rest patched1 looked looked'.
  destruct (node_not_found_is_skipped c) as (Hcandidates & Hmarked & Hnoerror).
  split; [|split].
  - apply (Hcandidates Examples.start m1 rest patched1 looked (Remote (NotFound "n1")));
      by vm_compute.
  - apply (Hmarked Examples.start m1 rest false looked' (Remote (NotFound "n1")));
      by vm_compute.
  - apply (Hnoerror ltac:(by intros ? ? ? [=]) Examples.start [Some Examples.oldIS] ∅
             [Examples.oldIS]).
Defined.

(** * Further properties *)

(** ** Machines to drain, again *)

(** X1.  [getMachinesForDrain] panics exactly when the target count is
    negative and the listing of the candidates goes through: the slice
    bound is then out of range whatever the lister returns.  When the
    listing fails it returns no machine and the error of the listing,
    whatever the target count. *)
Theorem getMachinesForDrain_panics_iff c w ms readyForDrain :
  let listing :=
    MachineList (MergeStringMaps (isSelector ms)
                   {[ LabelKeyMachineCandidateForUpdate := "true" ]}) in
  ((getMachinesForDrain c w ms readyForDrain).2 = Panicked ↔
   readyForDrain < 0 ∧ fault c (trace w) listing = None) ∧
  (∀ e, fault c (trace w) listing = Some e →
        (getMachinesForDrain c w ms readyForDrain).2 = Done ([], Some (Remote e))).
Proof.
  intros listing. subst listing.
  unfold getMachinesForDrain. rewrite machineLister_List_result.
  destruct (fault c (trace w) _) as [e|]; simpl.
  { split; [|by intros ? [= <-]]. split; [done|]. by intros [_ ?]. }
  split; [|done].
  repeat case_bool_decide; simpl; split; try done; try (intros [? _]; lia).
  intros _. split; [lia|done].
Qed.

(** What [getMachinesForDrain] returns when the listing goes through and
    the target count is not negative. *)
Lemma getMachinesForDrain_take c w ms readyForDrain :
  0 <= readyForDrain →
  fault c (trace w)
    (MachineList (MergeStringMaps (isSelector ms)
                    {[ LabelKeyMachineCandidateForUpdate := "true" ]})) = None →
  getMachinesForDrain c w ms readyForDrain =
    ({| trace := (MachineList (MergeStringMaps (isSelector ms)
                                 {[ LabelKeyMachineCandidateForUpdate := "true" ]}), None)
                 :: trace w;
        scaledTo := scaledTo w |},
     Done (take (Z.to_nat readyForDrain) (drainable c (trace w) ms), None)).
Proof.
  intros Hn Hlist. unfold getMachinesForDrain. rewrite machineLister_List_result, Hlist.
  fold (drainable c (trace w) ms).
  case_bool_decide; [by rewrite bool_decide_true|].
  by rewrite take_ge by lia.
Qed.

(** X2.  For a target count that is not negative, and when the listing goes
    through, [getMachinesForDrain] returns the first [readyForDrain] of the
    drainable machines in the order of the lister, and all of them when
    there are fewer. *)
Theorem getMachinesForDrain_first c w ms readyForDrain :
  0 <= readyForDrain →
  fault c (trace w)
    (MachineList (MergeStringMaps (isSelector ms)
                    {[ LabelKeyMachineCandidateForUpdate := "true" ]})) = None →
  (getMachinesForDrain c w ms readyForDrain).2 =
    Done (take (Z.to_nat readyForDrain) (drainable c (trace w) ms), None) ∧
  Z.of_nat (length (take (Z.to_nat readyForDrain) (drainable c (trace w) ms))) =
    Z.min readyForDrain (Z.of_nat (length (drainable c (trace w) ms))).
Proof.
  intros Hn Hlist. rewrite getMachinesForDrain_take by done.
  split; [done|]. rewrite length_take. lia.
Qed.

Lemma getMachinesForDrain_first_witness :
  let c := Examples.still Examples.workers [] Examples.noFaults in
  (getMachinesForDrain c Examples.start Examples.oldIS 2).2 =
    Done (take (Z.to_nat 2) (drainable c (trace Examples.start) Examples.oldIS), None) ∧
  Z.of_nat (length (take (Z.to_nat 2) (drainable c (trace Examples.start) Examples.oldIS))) =
    Z.min 2 (Z.of_nat (length (drainable c (trace Examples.start) Examples.oldIS))).
Proof.
  apply (getMachinesForDrain_first
           (Examples.still Examples.workers [] Examples.noFaults) Examples.start
           Examples.oldIS 2).
  - lia.
  - reflexivity.
Defined.

(** ** Labelling the machines selected for update *)

Section Labelling.
Context (c : Cluster).

(** The machines [getMachinesForDrain] returns are candidates, and its one
    call is the listing. *)
Lemma getMachinesForDrain_candidates w ms readyForDrain w' o :
  getMachinesForDrain c w ms readyForDrain = (w', o) →
  ∃ r, performed w w' [(MachineList (MergeStringMaps (isSelector ms)
                          {[ LabelKeyMachineCandidateForUpdate := "true" ]}), r)] ∧
       scaledTo w' = scaledTo w ∧
       match o with
       | Done (machines, err) =>
           err = Remote <$> r ∧
           Forall (λ m, mLabels m !! LabelKeyMachineCandidateForUpdate = Some "true") machines
       | Panicked => r = None
       end.
Proof.
  unfold getMachinesForDrain. rewrite machineLister_List_result.
  destruct (fault c (trace w) _) as [e|].
  { intros [= <- <-]. eexists. split_and!; [done|done|done|apply Forall_nil_2]. }
  assert (Hcand :
    Forall (λ m, mLabels m !! LabelKeyMachineCandidateForUpdate = Some "true")
      (filter (λ m, mLabels m !! LabelKeyMachineSelectedForUpdate = None)
         (filter (λ m, selects (MergeStringMaps (isSelector ms)
                                  {[ LabelKeyMachineCandidateForUpdate := "true" ]}) (mLabels m))
            (machineCache c (trace w))))).
  { apply Forall_forall. intros m Hm.
    apply list_elem_of_filter in Hm as [_ Hm]. apply list_elem_of_filter in Hm as [Hm _].
    by apply selects_merged in Hm as [? _]. }
  repeat case_bool_decide; intros [= <- <-]; eexists; split_and!; try done.
  by apply Forall_take.
Qed.

(** The labelling loop patches candidates only, stops at the first patch
    that fails and hands its error on; it counts the patches that went
    through. *)
Lemma labelSelected_candidates machines : ∀ w k w' n err,
  Forall (λ m, mLabels m !! LabelKeyMachineCandidateForUpdate = Some "true") machines →
  Int32.in_range k →
  labelSelected c w machines k = (w', (n, err)) →
  ∃ evs, performed w w' evs ∧ scaledTo w' = scaledTo w ∧
         Forall candidateSelected evs ∧ failsLast evs ∧ handsOn evs err ∧
         n = Int32.wrap (k + patched evs) ∧ patched evs <= Z.of_nat (length machines) ∧
         (err = None → patched evs = Z.of_nat (length machines)).
Proof.
  induction machines as [|m machines IH]; intros w k w' n err Hcand Hk; cbn [labelSelected].
  { intros [= <- <- <-]. exists []. rewrite patched_nil, Z.add_0_r, wrap_id by done.
    split_and!; try done; apply Forall_nil_2. }
  apply Forall_cons in Hcand as [Hm Hcand].
  unfold machineControl_PatchMachine.
  destruct (invoke c w _) as [w1 e] eqn:Hp.
  apply invoke_performed in Hp as (r & -> & Hp & Hs).
  assert (Hpatch : candidateSelected
            (PatchMachine (mNamespace m) (mName m)
               (LabelsPatch (MergeStringMaps (mLabels m)
                               {[ LabelKeyMachineSelectedForUpdate := "true" ]})), r)).
  { unfold candidateSelected. simpl. rewrite !MergeStringMaps_lookup_new.
    rewrite decide_False by done. by rewrite decide_True. }
  destruct r as [e|]; cbn [fmap option_fmap option_map].
  - intros [= <- <- <-]. eexists. split; [exact Hp|]. count_patched.
    rewrite !Z.add_0_r, wrap_id by done. simpl length.
    split_and!; try done; try lia; try by apply Forall_singleton.
    + apply Forall_nil_2.
    + by eexists _, _.
  - intros Hrest.
    apply IH in Hrest as (evs & Hp' & Hs' & Hcalls & Hlast & Hon & -> & Hle & Hall);
      [|done|apply add_in_range].
    eexists. split; [exact (performed_trans _ _ _ _ _ Hp Hp')|].
    split; [congruence|]. split; [apply Forall_app; split; [done|by apply Forall_singleton]|].
    count_patched. simpl length. unfold Int32.add. rewrite wrap_add_l.
    split_and!.
    + unfold failsLast in *. destruct evs as [|e evs]; [apply Forall_nil_2|].
      simpl. apply Forall_app. split; [done|by apply Forall_singleton].
    + destruct err as [e|]; simpl in *.
      * destruct Hon as (k' & r & Hhead & ->). exists k', r. split; [|done].
        destruct evs; [done|]. by simpl in *.
      * apply Forall_app. split; [done|by apply Forall_singleton].
    + f_equal. lia.
    + lia.
    + intros ->. rewrite Hall by done. lia.
Qed.

End Labelling.

(** The calls of [labelMachinesToSelectedForUpdate]. *)
Lemma labelMachinesToSelectedForUpdate_calls c w ms newScale w' o :
  labelMachinesToSelectedForUpdate c w ms newScale = (w', o) →
  ∃ evs, performed w w' evs ∧ scaledTo w' = scaledTo w ∧
         Forall candidateSelected evs ∧ failsLast evs ∧
         match o with
         | Done (n, err) => handsOn evs err ∧ n = Int32.wrap (patched evs)
         | Panicked => Forall (λ e, e.2 = None) evs
         end.
Proof.
  unfold labelMachinesToSelectedForUpdate.
  destruct (getMachinesForDrain c w ms _) as [w1 o1] eqn:Hdrain.
  apply getMachinesForDrain_candidates in Hdrain as (r & Hp & Hs & Ho).
  destruct o1 as [[machines [err|]]|]; simpl.
  - destruct Ho as [Herr _]. destruct r as [e|]; [|done]. injection Herr as ->.
    intros [= <- <-]. eexists.
    split_and!; [exact Hp|done|by apply Forall_singleton|apply Forall_nil_2| |].
    + by eexists _, _.
    + by count_patched.
  - destruct Ho as [Herr Hcand]. destruct r as [e|]; [done|].
    destruct (labelSelected c w1 machines 0) as [w2 [n err]] eqn:Hlabel.
    apply labelSelected_candidates in Hlabel
      as (evs & Hp' & Hs' & Hcalls & Hlast & Hon & -> & _); [|done|int32_lia].
    intros [= <- <-]. eexists.
    split_and!; [exact (performed_trans _ _ _ _ _ Hp Hp')|congruence| | | |].
    + apply Forall_app. split; [done|by apply Forall_singleton].
    + unfold failsLast in *. destruct evs as [|e evs]; [apply Forall_nil_2|].
      simpl. apply Forall_app. split; [done|by apply Forall_singleton].
    + destruct err as [e|]; simpl in *.
      * destruct Hon as (k' & r & Hhead & ->). exists k', r. split; [|done].
        destruct evs; [done|]. by simpl in *.
      * apply Forall_app. split; [done|by apply Forall_singleton].
    + count_patched. by rewrite Z.add_0_l, Z.add_0_r.
  - subst r. intros [= <- <-]. eexists.
    split_and!; [exact Hp|done|by apply Forall_singleton|apply Forall_nil_2|].
    by apply Forall_singleton.
Qed.

(** X3.  Every patch [labelMachinesToSelectedForUpdate] sends carries the
    labels of a candidate for update with selected-for-update = "true"; it
    changes no replica count; its calls stop at the first one that fails,
    whose error it hands on as it is; and the count it returns is the
    number of patches that went through. *)
Theorem labelMachinesToSelectedForUpdate_labels c w ms newScale :
  let run := labelMachinesToSelectedForUpdate c w ms newScale in
  ∃ evs, performed w run.1 evs ∧ scaledTo run.1 = scaledTo w ∧
         Forall candidateSelected evs ∧ failsLast evs ∧
         ∀ n err, run.2 = Done (n, err) →
                  handsOn evs err ∧ n = Int32.wrap (patched evs).
Proof.
  intros run. subst run.
  destruct (labelMachinesToSelectedForUpdate c w ms newScale) as [w' o] eqn:Hrun.
  apply labelMachinesToSelectedForUpdate_calls in Hrun as (evs & Hp & Hs & Hcalls & Hlast & Ho).
  exists evs. split_and!; try done. by intros n err [= ->].
Qed.

(** ** The selection, again *)

Lemma failsLast_app evs2 evs1 :
  failsLast evs2 → failsLast evs1 → Forall (λ e, e.2 = None) evs1 → failsLast (evs2 ++ evs1).
Proof.
  unfold failsLast. intros H2 H1 Hok. destruct evs2 as [|e evs2]; [done|].
  simpl in *. by apply Forall_app.
Qed.

Lemma handsOn_app evs2 evs1 err :
  handsOn evs2 err → Forall (λ e, e.2 = None) evs1 → handsOn (evs2 ++ evs1) err.
Proof.
  destruct err as [e|]; simpl.
  - intros (k & r & Hhead & ->) _. exists k, r. split; [|done]. by destruct evs2.
  - intros. by apply Forall_app.
Qed.

Section SelectionCalls.
Context (c : Cluster).

(** The calls of the selection loop. *)
Lemma selectFrom_calls cap oldISs : ∀ w total w' o,
  selectFrom c w cap oldISs total = (w', o) →
  ∃ evs, performed w w' evs ∧ Forall candidateSelected evs ∧ failsLast evs ∧
         selectionErrors evs o.
Proof.
  induction oldISs as [|ms oldISs IH]; intros w total w' o; cbn [selectFrom].
  { intros [= <- <-]. exists []. split_and!; [done|..]; apply Forall_nil_2. }
  case_bool_decide.
  { intros [= <- <-]. exists []. split_and!; [done|..]; apply Forall_nil_2. }
  case_bool_decide; [by apply IH|].
  case_bool_decide.
  { intros [= <- <-]. exists []. split_and!; [done|..]; apply Forall_nil_2. }
  destruct (labelMachinesToSelectedForUpdate c w ms _) as [w1 o1] eqn:Hlabel.
  apply labelMachinesToSelectedForUpdate_calls in Hlabel
    as (evs1 & Hp1 & _ & Hcalls1 & Hlast1 & Ho1).
  destruct o1 as [[n [err|]]|].
  - intros [= <- <-]. exists evs1. split_and!; try done. destruct Ho1 as [Hon _].
    destruct Hon as (k & r & Hhead & ->). simpl. by exists k, r.
  - destruct Ho1 as [Hok _]. simpl in Hok. intros Hrest.
    apply IH in Hrest as (evs2 & Hp2 & Hcalls2 & Hlast2 & Ho2).
    exists (evs2 ++ evs1). split_and!; [by eapply performed_trans|by apply Forall_app|
                                         by apply failsLast_app|].
    destruct o as [[n' [[]|]]|]; simpl in *; try done;
      try (by apply (handsOn_app evs2 evs1 (Some _))); by apply Forall_app.
  - intros [= <- <-]. exists evs1. by split_and!.
Qed.

Lemma invoke_noFailures w k : noFailures c → (invoke c w k).2 = None.
Proof. intros Hno. unfold invoke, call. simpl. by rewrite Hno. Qed.

(** Without failures the labelling loop patches every machine. *)
Lemma labelSelected_noFailures machines : noFailures c → ∀ w k,
  Int32.in_range k →
  (labelSelected c w machines k).2 = (Int32.wrap (k + Z.of_nat (length machines)), None).
Proof.
  intros Hno. induction machines as [|m machines IH]; intros w k Hk; cbn [labelSelected].
  { simpl. by rewrite Z.add_0_r, wrap_id. }
  unfold machineControl_PatchMachine.
  pose proof (invoke_noFailures w (PatchMachine (mNamespace m) (mName m)
    (LabelsPatch (MergeStringMaps (mLabels m)
                    {[ LabelKeyMachineSelectedForUpdate := "true" ]}))) Hno) as Hpatch.
  destruct (invoke c w _) as [w1 err]. simpl in Hpatch. subst err.
  rewrite IH by apply add_in_range. unfold Int32.add. rewrite wrap_add_l.
  do 2 f_equal. simpl length. lia.
Qed.

(** Without failures, and with enough drainable machines, labelling a
    machine set down to a new scale selects exactly the difference. *)
Lemma labelMachinesToSelectedForUpdate_exact w ms newScale :
  noFailures c →
  0 <= Int32.sub (isReplicas ms) newScale <= Z.of_nat (length (drainable c (trace w) ms)) →
  (labelMachinesToSelectedForUpdate c w ms newScale).2 =
    Done (Int32.sub (isReplicas ms) newScale, None).
Proof.
  intros Hno [Hlo Hhi]. unfold labelMachinesToSelectedForUpdate.
  rewrite getMachinesForDrain_take by done.
  match goal with
  | |- context [labelSelected c ?w1 ?machines 0] =>
      pose proof (labelSelected_noFailures machines Hno w1 0 ltac:(int32_lia)) as Hlabel;
      destruct (labelSelected c w1 machines 0) as [w2 r]
  end.
  simpl in Hlabel. subst r. simpl. rewrite length_take, Z.add_0_l.
  pose proof (sub_in_range (isReplicas ms) newScale).
  do 2 f_equal. rewrite wrap_id; [lia|]. int32_lia.
Qed.

(** Without failures, and with enough drainable machines in each old
    machine set when the loop comes to it, the loop selects machines until
    the budget or the old machine sets are used up. *)
Lemma selectFrom_exact cap oldISs :
  noFailures c → Int32.in_range cap →
  Forall (λ ms, 0 <= isReplicas ms <= Int32.max_int) oldISs →
  ∀ w chosen, 0 <= chosen →
  (∀ before ms after, oldISs = before ++ ms :: after →
     isReplicas ms <=
     Z.of_nat (length (drainable c (trace (selectFrom c w cap before chosen).1) ms))) →
  (selectFrom c w cap oldISs chosen).2 =
    Done (Z.min (Z.max chosen cap) (chosen + total (isReplicas <$> oldISs)), None).
Proof.
  intros Hno Hcap Hsizes. induction Hsizes as [|ms oldISs [Hlo Hhi] Hsizes IH];
    intros w chosen Hchosen Henough; cbn [selectFrom].
  { simpl. do 2 f_equal. unfold total. simpl. lia. }
  assert (Hsum : 0 <= total (isReplicas <$> oldISs)).
  { clear -Hsizes. induction Hsizes as [|? ? [? ?] _ IH]; [done|].
    rewrite fmap_cons, total_cons. lia. }
  rewrite fmap_cons, total_cons.
  case_bool_decide as Hbreak; [simpl; do 2 f_equal; lia|].
  case_bool_decide as Hzero.
  { rewrite IH; [do 2 f_equal; lia|done|].
    intros before ms' after ->. specialize (Henough (ms :: before) ms' after eq_refl).
    cbn [selectFrom] in Henough.
    rewrite (bool_decide_false _ Hbreak), (bool_decide_true _ Hzero) in Henough.
    exact Henough. }
  destruct (newReplicasCount_positive ms cap chosen Hcap ltac:(lia) ltac:(lia))
    as (_ & Hdrain & Hok).
  rewrite (bool_decide_false _ Hok).
  pose proof (Henough [] ms oldISs eq_refl) as Hfirst. cbn [selectFrom fst] in Hfirst.
  pose proof (labelMachinesToSelectedForUpdate_exact w ms (newReplicasCount ms cap chosen) Hno)
    as Hlabel.
  rewrite Hdrain in Hlabel.
  assert (Hdone := Hlabel ltac:(split; [lia|]; etrans; [apply Z.le_min_l|exact Hfirst])).
  clear Hlabel.
  destruct (labelMachinesToSelectedForUpdate c w ms _) as [w1 o] eqn:Hrun.
  simpl in Hdone. subst o.
  rewrite add_exact by int32_lia. rewrite IH; [do 2 f_equal; lia|lia|].
  intros before ms' after ->. specialize (Henough (ms :: before) ms' after eq_refl).
  cbn [selectFrom] in Henough.
  rewrite (bool_decide_false _ Hbreak), (bool_decide_false _ Hzero),
    (bool_decide_false _ Hok), Hrun in Henough.
  rewrite add_exact in Henough by int32_lia. exact Henough.
Qed.

End SelectionCalls.

Global Instance total_Permutation : Proper ((≡ₚ) ==> (=)) total.
Proof.
  intros ks1 ks2 Hperm. induction Hperm as [|k ks1 ks2 _ IH|k1 k2 ks|ks1 ks2 ks3 _ IH1 _ IH2].
  - done.
  - rewrite !total_cons. lia.
  - rewrite !total_cons. lia.
  - congruence.
Qed.

(** X4.  [selectMachineForUpdate] changes no replica count and patches
    candidates only; its calls stop at the first one that fails.  An error
    it returns is either the error of that latest call, handed on as it is
    and with the number of machines labelled so far, or the
    invalid-request error, which comes after calls that all went through,
    with a count of zero, and names an old generation of negative size
    with that size. *)
Theorem selectMachineForUpdate_exits c w allISs oldISs deployment undergoing :
  let run := selectMachineForUpdate c w allISs oldISs deployment undergoing in
  ∃ evs, performed w run.1 evs ∧ scaledTo run.1 = scaledTo w ∧
         Forall candidateSelected evs ∧ failsLast evs ∧
         ∀ n err, run.2 = Done (n, Some err) →
           (n = patched evs ∧ handsOn evs (Some err)) ∨
           (n = 0 ∧ Forall (λ e, e.2 = None) evs ∧
            ∃ ms newCount, ms ∈ oldISs ∧ isReplicas ms < 0 ∧
              err = InvalidRequest (isName ms) (isReplicas ms) newCount).
Proof.
  intros run. subst run. unfold selectMachineForUpdate.
  case_bool_decide.
  { exists []. split_and!; [done|done|apply Forall_nil_2|apply Forall_nil_2|done]. }
  destruct (selectFrom c w _ _ 0) as [w' o] eqn:Hrun. pose proof Hrun as Hrun'.
  apply selectFrom_calls in Hrun as (evs & Hp & Hcalls & Hlast & Herrors).
  apply selectFrom_spec in Hrun' as (evs' & Hp' & Hs & _ & _ & Hout);
    [|apply sub_in_range|done].
  rewrite <- (performed_unique _ _ _ _ Hp Hp') in Hout.
  exists evs. simpl. split_and!; try done.
  intros n err ->. simpl in Hout, Herrors. destruct err as [r|name oldCount newCount| | |];
    try (left; split; [lia|done]).
  right. destruct Hout as (-> & ms & Hin & -> & -> & Hneg & _).
  split_and!; [done|done|]. exists ms, newCount.
  by rewrite sortByCreationTimestamp_perm in Hin.
Qed.

(** X5.  When no call fails and every old machine set, of a size that is
    not negative, has at least as many drainable machines as replicas at
    the time the selection comes to it, oldest first,
    [selectMachineForUpdate] selects machines until the budget or the old
    machine sets are used up: it returns the smaller of the budget and
    the total size of the old machine sets. *)
Theorem selectMachineForUpdate_exact c w allISs oldISs deployment undergoing :
  noFailures c →
  Forall (λ ms, 0 <= isReplicas ms <= Int32.max_int) oldISs →
  enoughDrainable c w
    (Int32.sub (availableMachineCount allISs undergoing) (minAvailable c deployment))
    (sortByCreationTimestamp oldISs) →
  let budget :=
    if bool_decide (availableMachineCount allISs undergoing <= minAvailable c deployment)
    then 0
    else Z.max 0 (Int32.sub (availableMachineCount allISs undergoing)
                            (minAvailable c deployment)) in
  (selectMachineForUpdate c w allISs oldISs deployment undergoing).2 =
    Done (Z.min budget (total (isReplicas <$> oldISs)), None).
Proof.
  intros Hno Hsizes Henough budget. subst budget. unfold selectMachineForUpdate.
  assert (Hsum : 0 <= total (isReplicas <$> oldISs)).
  { clear -Hsizes. induction Hsizes as [|? ? [? ?] _ IH]; [done|].
    rewrite fmap_cons, total_cons. lia. }
  case_bool_decide; [simpl; do 2 f_equal; lia|].
  rewrite selectFrom_exact; [|done|apply sub_in_range| |done|exact Henough].
  - by rewrite Z.add_0_l, sortByCreationTimestamp_perm.
  - by rewrite sortByCreationTimestamp_perm.
Qed.

Lemma selectMachineForUpdate_exact_witness :
  let c := Examples.reflecting [Examples.worker "m1" "n1"; Examples.nextWorker] []
             Examples.noFaults in
  let allISs := [Examples.smallIS; Examples.nextIS; Examples.fullIS] in
  let oldISs := [Examples.nextIS; Examples.smallIS] in
  (selectMachineForUpdate c Examples.start allISs oldISs Examples.deployment 0).2 =
    Done (Z.min (if bool_decide (availableMachineCount allISs 0
                                 <= minAvailable c Examples.deployment)
                 then 0
                 else Z.max 0 (Int32.sub (availableMachineCount allISs 0)
                                         (minAvailable c Examples.deployment)))
                (total (isReplicas <$> oldISs)), None).
Proof.
  apply (selectMachineForUpdate_exact
           (Examples.reflecting [Examples.worker "m1" "n1"; Examples.nextWorker] []
              Examples.noFaults)
           Examples.start [Examples.smallIS; Examples.nextIS; Examples.fullIS]
           [Examples.nextIS; Examples.smallIS] Examples.deployment 0).
  - intros tr k. reflexivity.
  - repeat apply Forall_cons_2; try apply Forall_nil_2; split; by vm_compute.
  - intros before ms after Hsorted.
    change (sortByCreationTimestamp [Examples.nextIS; Examples.smallIS])
      with [Examples.smallIS; Examples.nextIS] in Hsorted.
    destruct before as [|ms1 [|ms2 before]].
    + injection Hsorted as <- _. by vm_compute.
    + injection Hsorted as <- <- _. by vm_compute.
    + injection Hsorted as _ _ Hrest. by destruct before.
Defined.

(** The machine cache of the witness follows the patches: once the
    machine of the older generation is labelled, it is no longer among
    the drainable machines of its generation, while the machine of the
    younger generation still is among those of its own. *)
Example drainable_after_selection :
  let c := Examples.reflecting [Examples.worker "m1" "n1"; Examples.nextWorker] []
             Examples.noFaults in
  let w := (selectFrom c Examples.start 3 [Examples.smallIS] 0).1 in
  drainable c (trace Examples.start) Examples.smallIS = [Examples.worker "m1" "n1"] ∧
  drainable c (trace w) Examples.smallIS = [] ∧
  drainable c (trace w) Examples.nextIS = [Examples.nextWorker].
Proof. by vm_compute. Qed.

(** ** Counting the machines undergoing update *)

(** The loop of [getMachinesUndergoingUpdate]. *)
Lemma getMachinesUndergoingUpdate_lists c oldISs : ∀ w count w' n err,
  Int32.in_range count →
  getMachinesUndergoingUpdate_loop c w oldISs count = (w', (n, err)) →
  ∃ evs, performed w w' evs ∧ scaledTo w' = scaledTo w ∧
         Forall selectedListing evs ∧ failsLast evs ∧ handsOn evs err ∧
         Int32.in_range n ∧ (is_Some err → n = 0) ∧
         (err = None → length evs = length oldISs).
Proof.
  induction oldISs as [|ms oldISs IH]; intros w count w' n err Hcount;
    cbn [getMachinesUndergoingUpdate_loop].
  { intros [= <- <- <-]. exists [].
    split_and!; try done; apply Forall_nil_2. }
  rewrite machineLister_List_result.
  assert (Hsel : ∀ r, selectedListing
    (MachineList (MergeStringMaps (isSelector ms)
                    {[ LabelKeyMachineSelectedForUpdate := "true" ]}), r)).
  { intros r. unfold selectedListing. simpl. rewrite MergeStringMaps_lookup_new.
    by rewrite decide_True. }
  destruct (fault c (trace w) _) as [e|].
  { intros [= <- <- <-]. eexists [_].
    split_and!; [done|done|by apply Forall_singleton|apply Forall_nil_2| | |done|done].
    - by eexists _, _.
    - int32_lia. }
  intros Hrest. apply IH in Hrest as (evs & Hp & Hs & Hcalls & Hlast & Hon & Hn & Hzero & Hlen);
    [|apply add_in_range].
  exists (evs ++ [(MachineList (MergeStringMaps (isSelector ms)
                     {[ LabelKeyMachineSelectedForUpdate := "true" ]}), None)]).
  split_and!; try done.
  - unfold performed in *. rewrite Hp. simpl. by rewrite <- app_assoc.
  - apply Forall_app. split; [done|by apply Forall_singleton].
  - apply failsLast_app; [done|apply Forall_nil_2|by apply Forall_singleton].
  - apply handsOn_app; [done|by apply Forall_singleton].
  - intros ->. rewrite length_app, Hlen by done. simpl. lia.
Qed.

(** X6.  [getMachinesUndergoingUpdate] only lists machines, each time
    those that carry selected-for-update = "true"; it stops at the first
    listing that fails, hands its error on as it is and then returns a
    count of zero, whatever it had counted; without an error it has made
    one listing for every generation.  The count is an [int32]. *)
Theorem getMachinesUndergoingUpdate_reads c w oldISs :
  let run := getMachinesUndergoingUpdate c w oldISs in
  ∃ evs, performed w run.1 evs ∧ scaledTo run.1 = scaledTo w ∧
         Forall selectedListing evs ∧ failsLast evs ∧ handsOn evs run.2.2 ∧
         Int32.in_range run.2.1 ∧ (is_Some run.2.2 → run.2.1 = 0) ∧
         (run.2.2 = None → length evs = length oldISs).
Proof.
  intros run. subst run. unfold getMachinesUndergoingUpdate.
  destruct (getMachinesUndergoingUpdate_loop c w oldISs 0) as [w' [n err]] eqn:Hrun.
  apply getMachinesUndergoingUpdate_lists in Hrun; [done|int32_lia].
Qed.

(** ** The old machine sets *)

Lemma selectedListing_selectionCall e : selectedListing e → selectionCall e.
Proof. unfold selectedListing, selectionCall. by destruct e as [[] ?]. Qed.

(** X7.  [reconcileOldMachineSetsInPlace] never panics and never changes a
    replica count: its calls are listings of machines and patches that set
    selected-for-update.  It reports progress only without an error and
    only when a machine was labelled, and without an error it reports
    progress whenever a machine was labelled. *)
Theorem reconcileOldMachineSetsInPlace_labels_only c w allISs oldISs newIS deployment :
  let run := reconcileOldMachineSetsInPlace c w allISs oldISs newIS deployment in
  ∃ evs progress err,
    run.2 = Done (progress, err) ∧
    performed w run.1 evs ∧ scaledTo run.1 = scaledTo w ∧ Forall selectionCall evs ∧
    (progress = true → err = None ∧ 1 <= patched evs) ∧
    (err = None → 1 <= patched evs → progress = true).
Proof.
  intros run. subst run. unfold reconcileOldMachineSetsInPlace.
  case_bool_decide.
  { exists [], false, None. rewrite patched_nil.
    split_and!; first [done|apply Forall_nil_2|lia]. }
  unfold getMachinesUndergoingUpdate.
  destruct (getMachinesUndergoingUpdate_loop c w oldISs 0) as [w1 [undergoing err]] eqn:Hcount.
  apply getMachinesUndergoingUpdate_lists in Hcount
    as (evs1 & Hp1 & Hs1 & Hlists & _ & _ & _ & _ & _); [|int32_lia].
  assert (Hcalls1 : Forall selectionCall evs1).
  { eapply Forall_impl; [done|]. apply selectedListing_selectionCall. }
  assert (Hnone : patched evs1 = 0).
  { clear -Hlists. induction Hlists as [|[k r] evs Hk _ IH]; [done|].
    rewrite patched_cons, IH. by destruct k. }
  destruct err as [err|].
  { exists evs1, false, (Some err). simpl. split_and!; first [done|lia]. }
  simpl. case_bool_decide.
  { exists evs1, false, None. simpl. split_and!; first [done|lia]. }
  destruct (selectMachineForUpdate c w1 allISs oldISs deployment undergoing)
    as [w2 o] eqn:Hselect.
  revert Hselect. unfold selectMachineForUpdate. case_bool_decide.
  { intros [= <- <-]. exists evs1, false, None. simpl. split_and!; first [done|lia]. }
  intros Hselect.
  apply selectFrom_spec in Hselect as (evs2 & Hp2 & Hs2 & Hcalls2 & _ & Hout);
    [|apply sub_in_range|done].
  pose proof (performed_trans _ _ _ _ _ Hp1 Hp2) as Hp.
  assert (Hcalls : Forall selectionCall (evs2 ++ evs1)) by by apply Forall_app.
  assert (Hcount : patched (evs2 ++ evs1) = patched evs2) by (rewrite patched_app; lia).
  destruct o as [[n [e|]]|]; [| |done].
  - exists (evs2 ++ evs1), false, (Some e). simpl.
    split_and!; first [done|congruence].
  - simpl in Hout. exists (evs2 ++ evs1), (bool_decide (n > 0)), None. simpl.
    split_and!; [done|done|congruence|done| |].
    + intros Hn%bool_decide_eq_true. split; [done|lia].
    + intros _ Hn. apply bool_decide_eq_true. lia.
Qed.

(** ** The ownership transfer, again *)

Lemma uncordons_app evs1 evs2 : uncordons (evs1 ++ evs2) = uncordons evs1 + uncordons evs2.
Proof. unfold uncordons. rewrite filter_app, length_app. lia. Qed.

Lemma uncordons_cons e evs :
  uncordons (e :: evs) = (if isUncordon e then 1 else 0) + uncordons evs.
Proof.
  unfold uncordons. rewrite filter_cons.
  destruct (decide (isUncordon e = true)) as [->|Hn]; [simpl length; lia|].
  apply not_true_is_false in Hn. rewrite Hn. lia.
Qed.

Lemma uncordons_nil : uncordons [] = 0.
Proof. done. Qed.

Ltac count_calls :=
  repeat first [rewrite patched_app | rewrite patched_cons | rewrite patched_nil
               | rewrite uncordons_app | rewrite uncordons_cons | rewrite uncordons_nil];
  cbn [isPatched isUncordon fst].

Lemma scalesWithin_mono newIS oldISs known d bound bound' e :
  bound <= bound' → (∀ ms, ms ∈ oldISs → ms ∈ known) →
  scalesWithin newIS oldISs d bound e → scalesWithin newIS known d bound' e.
Proof.
  intros Hle Hsub. unfold scalesWithin. destruct e as [[] r]; simpl; try done.
  intros [(k & Hk & ? & ?)|[?|(ms & k & Hin & Hk & ? & ?)]].
  - left. exists k. split; [lia|done].
  - by right; left.
  - right; right. exists ms, k. split; [by apply Hsub|]. split; [lia|done].
Qed.

Lemma wrap_nonzero k : 0 <= k → Int32.wrap k ≠ 0 → 1 <= k.
Proof.
  intros Hk Hne. destruct (decide (k = 0)) as [->|]; [|lia]. by vm_compute in Hne.
Qed.

Lemma add_changes r k :
  Int32.in_range r → 0 <= k → r ≠ Int32.add r (Int32.wrap k) → 1 <= k.
Proof.
  intros Hr Hk Hne. destruct (decide (k = 0)) as [->|]; [|lia].
  exfalso. apply Hne. unfold Int32.add. by rewrite wrap_add_r, Z.add_0_r, wrap_id.
Qed.

Lemma add_changes_back r k :
  Int32.in_range r → 0 < k < Int32.modulus → r ≠ Int32.add r (Int32.wrap k).
Proof.
  intros Hr Hk Heq. unfold Int32.add in Heq. rewrite wrap_add_r in Heq.
  destruct (wrap_eqm (r + k)) as [j Hj]. rewrite <- Heq in Hj.
  unfold Int32.modulus in *. change (2 ^ 32) with 4294967296 in *. lia.
Qed.

Lemma movesTo_patch newIS namespace name (labels : Labels) uid r :
  movesTo newIS
    (PatchMachine namespace name
       (OwnerPatch (GroupVersionKind_String (SchemeGroupVersion_WithKind "MachineSet"))
          (isName newIS) (isUID newIS)
          (MergeStringMaps labels {[ LabelKeyMachineUpdateSuccessful := "true" ]}) uid), r).
Proof.
  unfold movesTo. simpl. split_and!; try done.
  rewrite MergeStringMaps_lookup_new. by rewrite decide_True.
Qed.

Lemma scalesWithin_up newIS known d bound k r :
  0 <= k <= bound →
  scalesWithin newIS known d bound
    (MachineSetUpdate (isName newIS) (Int32.add (isReplicas newIS) (Int32.wrap k)), r).
Proof.
  intros Hk. left. exists k. split_and!; try done; try lia.
  unfold Int32.add. by rewrite wrap_add_r.
Qed.

Lemma scalesWithin_down newIS known d bound ms k r :
  ms ∈ known → 0 <= k <= bound →
  scalesWithin newIS known d bound
    (MachineSetUpdate (isName ms) (Int32.sub (isReplicas ms) (Int32.wrap k)), r).
Proof.
  intros Hin Hk. right; right. exists ms, k. split_and!; try done; try lia.
  unfold Int32.sub. by rewrite wrap_sub_r.
Qed.

Section Moves.
Context (c : Cluster) (newIS : MachineSet) (d : MachineDeployment) (known : list MachineSet).

Ltac count_moves := unfold movedSoFar in *; cbn [snd id]; count_calls.

Lemma transferNodes_moves ms machines nodes : ms ∈ known → ∀ w t0 a0 w' fl,
  0 <= t0 <= a0 →
  transferNodes c w newIS ms d machines nodes (Int32.wrap t0) (Int32.wrap a0) = (w', fl) →
  ∃ evs, performed w w' evs ∧ Forall (movesTo newIS) evs ∧
         Forall (scalesWithin newIS known d (a0 + patched evs)) evs ∧
         uncordons evs = patched evs ∧ movedSoFar newIS snd a0 evs fl ∧
         ∀ t' a', fl = Next (t', a') → t' = Int32.wrap (t0 + patched evs).
Proof.
  intros Hms. induction nodes as [|node nodes IH]; intros w t0 a0 w' fl Hcount;
    cbn [transferNodes].
  { intros [= <- <-]. exists []. count_moves. rewrite !Z.add_0_r.
    split_and!; try done; try apply Forall_nil_2.
    all: try (by intros t' a' [= <- <-]). }
  destruct (getMachineFromNode machines node) as [machine|]; [|by apply IH].
  unfold machineControl_PatchMachine.
  destruct (invoke c w _) as [w1 err] eqn:Hpatch.
  apply invoke_performed in Hpatch as (r & -> & Hp1 & Hs1).
  destruct r as [e|]; cbn [fmap option_fmap option_map].
  - (* the patch failed *)
    destruct (scaleMachineSetAndRecordEvent c w1 newIS _ d) as [w2 [scaled err2]] eqn:Hup.
    apply scaleMachineSetAndRecordEvent_performed in Hup as (r2 & Hp2 & -> & Hr2).
    pose proof (performed_trans _ _ _ _ _ Hp1 Hp2) as Hp12. simpl in Hp12.
    destruct r2 as [e2|]; cbn [fmap option_fmap option_map].
    + intros [= <- <-]. eexists. split; [exact Hp12|]. count_moves. rewrite !Z.add_0_r.
      split_and!; try done.
      * apply Forall_cons_2; [exact I|]. apply Forall_singleton, movesTo_patch.
      * apply Forall_cons_2; [apply scalesWithin_up; lia|]. by apply Forall_singleton.
      * simpl. intros Hflag%bool_decide_eq_true Hsize. apply wrap_nonzero; lia.
    + destruct (scaleMachineSetAndRecordEvent c w2 ms _ d) as [w3 [scaled3 err3]] eqn:Hdown.
      apply scaleMachineSetAndRecordEvent_performed in Hdown as (r3 & Hp3 & -> & Hr3).
      destruct Hr2 as [_ ->].
      pose proof (performed_trans _ _ _ _ _ Hp12 Hp3) as Hp. simpl in Hp.
      assert (Hcalls : Forall (movesTo newIS)
                [(MachineSetUpdate (isName ms) (Int32.sub (isReplicas ms) (Int32.wrap t0)), r3);
                 (MachineSetUpdate (isName newIS)
                    (Int32.add (isReplicas newIS) (Int32.wrap a0)), @None RemoteError);
                 (PatchMachine (mNamespace machine) (mName machine)
                    (OwnerPatch (GroupVersionKind_String (SchemeGroupVersion_WithKind "MachineSet"))
                       (isName newIS) (isUID newIS)
                       (MergeStringMaps
                          (MergeWithOverwriteAndFilter (mLabels machine) (isSelector ms)
                             (isSelector newIS))
                          {[ LabelKeyMachineUpdateSuccessful := "true" ]})
                       (mUID machine)), Some e)]).
      { apply Forall_cons_2; [exact I|]. apply Forall_cons_2; [exact I|].
        apply Forall_singleton, movesTo_patch. }
      assert (Hscales : Forall (scalesWithin newIS known d a0)
                [(MachineSetUpdate (isName ms) (Int32.sub (isReplicas ms) (Int32.wrap t0)), r3);
                 (MachineSetUpdate (isName newIS)
                    (Int32.add (isReplicas newIS) (Int32.wrap a0)), @None RemoteError);
                 (PatchMachine (mNamespace machine) (mName machine)
                    (OwnerPatch (GroupVersionKind_String (SchemeGroupVersion_WithKind "MachineSet"))
                       (isName newIS) (isUID newIS)
                       (MergeStringMaps
                          (MergeWithOverwriteAndFilter (mLabels machine) (isSelector ms)
                             (isSelector newIS))
                          {[ LabelKeyMachineUpdateSuccessful := "true" ]})
                       (mUID machine)), Some e)]).
      { apply Forall_cons_2; [apply scalesWithin_down; [done|lia]|].
        apply Forall_cons_2; [apply scalesWithin_up; lia|]. by apply Forall_singleton. }
      destruct r3 as [e3|]; cbn [fmap option_fmap option_map]; intros [= <- <-];
        (eexists; split; [exact Hp|]; count_moves; rewrite !Z.add_0_r;
         split_and!; try done; simpl; intros Hflag%bool_decide_eq_true Hsize).
      * apply wrap_nonzero; lia.
      * apply (add_changes (isReplicas newIS)); [done|lia|done].
  - (* the patch went through *)
    destruct (invoke c w1 _) as [w2 err] eqn:Hnode.
    apply invoke_performed in Hnode as (r2 & -> & Hp2 & Hs2).
    pose proof (performed_trans _ _ _ _ _ Hp1 Hp2) as Hp. simpl in Hp.
    assert (Hcalls : ∀ r2, Forall (movesTo newIS)
              [(ControlNodeUpdate (uncordoned node), r2);
               (PatchMachine (mNamespace machine) (mName machine)
                  (OwnerPatch (GroupVersionKind_String (SchemeGroupVersion_WithKind "MachineSet"))
                     (isName newIS) (isUID newIS)
                     (MergeStringMaps
                        (MergeWithOverwriteAndFilter (mLabels machine) (isSelector ms)
                           (isSelector newIS))
                        {[ LabelKeyMachineUpdateSuccessful := "true" ]})
                     (mUID machine)), @None RemoteError)]).
    { intros r'. apply Forall_cons_2; [done|]. apply Forall_singleton, movesTo_patch. }
    destruct r2 as [e2|]; cbn [fmap option_fmap option_map].
    + intros [= <- <-]. eexists. split; [exact Hp|]. count_moves.
      split_and!; try done. by repeat apply Forall_cons_2.
    + unfold Int32.add. rewrite !wrap_add_l. intros Hrun.
      apply IH in Hrun as (evs & Hp' & Hmoves & Hscales & Hpairs & Hmoved & Hnext); [|lia].
      eexists. split; [exact (performed_trans _ _ _ _ _ Hp Hp')|]. count_moves.
      replace (a0 + (patched evs + (0 + (1 + 0)))) with (a0 + 1 + patched evs) by lia.
      split_and!.
      * apply Forall_app. split; [done|apply Hcalls].
      * apply Forall_app. split; [done|]. by repeat apply Forall_cons_2.
      * lia.
      * done.
      * intros t' a' Hfl. rewrite (Hnext t' a' Hfl). f_equal. lia.
Qed.

Lemma transferMachineSets_moves oldISs : (∀ ms, ms ∈ oldISs → ms ∈ known) → ∀ w a0 w' fl,
  0 <= a0 →
  transferMachineSets c w newIS d oldISs (Int32.wrap a0) = (w', fl) →
  ∃ evs, performed w w' evs ∧ Forall (movesTo newIS) evs ∧
         Forall (scalesWithin newIS known d (a0 + patched evs)) evs ∧
         uncordons evs = patched evs ∧ movedSoFar newIS id a0 evs fl.
Proof.
  induction oldISs as [|ms oldISs IH]; intros Hknown w a0 w' fl Ha;
    cbn [transferMachineSets].
  { intros [= <- <-]. exists []. count_moves. rewrite Z.add_0_r.
    split_and!; try done; apply Forall_nil_2. }
  assert (Hms : ms ∈ known) by apply Hknown, list_elem_of_here.
  assert (Hrest : ∀ ms', ms' ∈ oldISs → ms' ∈ known).
  { intros ms' Hin. by apply Hknown, list_elem_of_further. }
  rewrite machineLister_List_result.
  destruct (fault c (trace w) (MachineList (isSelector ms))) as [e1|].
  { intros [= <- <-]. eexists [_]. count_moves.
    split_and!; try done; by apply Forall_singleton. }
  unfold nodeLister_List, call. cbn [trace scaledTo].
  destruct (fault c _ (NodeList _)) as [e2|].
  { intros [= <- <-]. eexists [_; _]. count_moves.
    split_and!; try done; by repeat apply Forall_cons_2. }
  replace 0 with (Int32.wrap 0) at 1 by done.
  match goal with
  | |- context [transferNodes c ?w2 newIS ms d ?machines ?nodes _ _] =>
      assert (Hp0 : performed w w2
                [(NodeList {[LabelKeyMachineUpdateSuccessful := "true"]}, @None RemoteError);
                 (MachineList (isSelector ms), None)]) by done;
      destruct (transferNodes c w2 newIS ms d machines nodes (Int32.wrap 0) (Int32.wrap a0))
        as [w3 fl1] eqn:Hnodes
  end.
  apply (transferNodes_moves ms _ _ Hms) in Hnodes
    as (evs1 & Hp1 & Hmoves1 & Hscales1 & Hpairs1 & Hmoved1 & Hnext1); [|lia].
  pose proof (patched_nonneg evs1) as Hnn1.
  assert (Hlists : ∀ bound, Forall (λ e, movesTo newIS e ∧ scalesWithin newIS known d bound e)
            [(NodeList {[LabelKeyMachineUpdateSuccessful := "true"]}, @None RemoteError);
             (MachineList (isSelector ms), None)]).
  { intros bound. by repeat apply Forall_cons_2. }
  destruct fl1 as [[t1 a1]|[b err]].
  - rewrite (Hnext1 t1 a1 eq_refl). simpl in Hmoved1. rewrite Hmoved1, Z.add_0_l.
    destruct (scaleMachineSetAndRecordEvent c w3 ms _ d) as [w4 [scaled err]] eqn:Hdown.
    apply scaleMachineSetAndRecordEvent_performed in Hdown as (r4 & Hp4 & -> & _).
    pose proof (performed_trans _ _ _ _ _ (performed_trans _ _ _ _ _ Hp0 Hp1) Hp4) as Hp14.
    cbn [app] in Hp14.
    assert (Hdownscale : ∀ bound, patched evs1 <= bound →
              scalesWithin newIS known d bound
                (MachineSetUpdate (isName ms)
                   (Int32.sub (isReplicas ms) (Int32.wrap (patched evs1))), r4)).
    { intros bound Hb. apply scalesWithin_down; [done|lia]. }
    destruct r4 as [e4|]; cbn [fmap option_fmap option_map].
    { intros [= <- <-]. eexists. split; [exact Hp14|].
      count_moves. rewrite !Z.add_0_r, !Z.add_0_l. split_and!.
      - apply Forall_cons_2; [done|]. apply Forall_app. split; [done|].
        eapply Forall_impl; [apply (Hlists 0)|]. by intros ? [? _].
      - apply Forall_cons_2; [apply Hdownscale; lia|]. apply Forall_app. split; [done|].
        eapply Forall_impl; [apply (Hlists (a0 + patched evs1))|]. by intros ? [_ ?].
      - lia.
      - done.
      - simpl. intros Hflag%bool_decide_eq_true Hsize. apply wrap_nonzero; lia. }
    intros Hrun. apply IH in Hrun as (evs & Hp5 & Hmoves & Hscales & Hpairs & Hmoved);
      [|done|lia].
    eexists. split; [exact (performed_trans _ _ _ _ _ Hp14 Hp5)|].
    count_moves. rewrite !Z.add_0_r, !Z.add_0_l.
    replace (a0 + (patched evs + patched evs1)) with (a0 + patched evs1 + patched evs) by lia.
    pose proof (patched_nonneg evs).
    split_and!.
    + apply Forall_app. split; [done|]. apply Forall_cons_2; [done|].
      apply Forall_app. split; [done|].
      eapply Forall_impl; [apply (Hlists 0)|]. by intros ? [? _].
    + apply Forall_app. split; [done|]. apply Forall_cons_2; [apply Hdownscale; lia|].
      apply Forall_app. split.
      * eapply Forall_impl; [exact Hscales1|]. intros e.
        apply scalesWithin_mono; [lia|done].
      * eapply Forall_impl; [apply (Hlists (a0 + patched evs1 + patched evs))|].
        by intros ? [_ ?].
    + lia.
    + destruct fl as [a'|[b err]]; simpl in *; [done|]. destruct Hmoved as [Herr Hflag].
      split; [done|]. intros Hb Hsize. specialize (Hflag Hb Hsize). lia.
  - intros [= <- <-]. eexists. split; [exact (performed_trans _ _ _ _ _ Hp0 Hp1)|].
    count_moves. rewrite !Z.add_0_r. split_and!.
    + apply Forall_app. split; [done|].
      eapply Forall_impl; [apply (Hlists 0)|]. by intros ? [? _].
    + apply Forall_app. split; [done|].
      eapply Forall_impl; [apply (Hlists (a0 + patched evs1))|]. by intros ? [_ ?].
    + lia.
    + by destruct Hmoved1.
    + by destruct Hmoved1.
Qed.

End Moves.

Lemma add_same r k :
  Int32.in_range r → r = Int32.add r (Int32.wrap k) ↔ Int32.wrap k = 0.
Proof.
  intros Hr. unfold Int32.add. rewrite wrap_add_r. split.
  - intros Heq. destruct (wrap_eqm (r + k)) as [j Hj]. rewrite <- Heq in Hj.
    replace k with (0 + (- j) * Int32.modulus) by lia. by rewrite wrap_shift.
  - intros Hk. rewrite <- wrap_add_r, Hk, Z.add_0_r. by rewrite wrap_id.
Qed.

Lemma reconcileNewMachineSetInPlace_moves c w oldISs newIS d w' scaled err :
  reconcileNewMachineSetInPlace c w oldISs newIS d = (w', (scaled, err)) →
  ∃ evs, performed w w' evs ∧ Forall (movesTo newIS) evs ∧
         Forall (scalesWithin newIS oldISs d (patched evs)) evs ∧
         uncordons evs = patched evs ∧
         (Int32.in_range (isReplicas newIS) →
          (scaled = true → 1 <= patched evs ∨ dReplicas d < isReplicas newIS) ∧
          (err = None →
           scaled = true ↔ dReplicas d < isReplicas newIS ∨ Int32.wrap (patched evs) ≠ 0)).
Proof.
  unfold reconcileNewMachineSetInPlace. case_bool_decide as Heq.
  { intros [= <- <- <-]. exists []. count_calls.
    split_and!; try done; try apply Forall_nil_2.
    intros _. split; [done|]. intros _. split; [done|]. intros [?|Hne]; [lia|].
    by vm_compute in Hne. }
  case_bool_decide as Hgt.
  { intros Hrun.
    apply scaleMachineSetAndRecordEvent_performed in Hrun as (r & Hp & -> & Hr).
    eexists. split; [exact Hp|]. count_calls. split_and!.
    - by apply Forall_singleton.
    - apply Forall_singleton. right; left. split_and!; [done|done|lia].
    - done.
    - intros _. split; [intros _; right; lia|]. intros Hnone.
      destruct r as [e|]; [done|]. destruct Hr as [_ ->].
      rewrite bool_decide_true by done. split; [|done]. intros _. left. lia. }
  destruct (transferMachineSets c w newIS d oldISs 0) as [w1 fl] eqn:Hloop.
  apply (transferMachineSets_moves c newIS d oldISs oldISs (λ _ Hin, Hin) w 0) in Hloop
    as (evs & Hp & Hmoves & Hscales & Hpairs & Hmoved); [|done].
  rewrite Z.add_0_l in Hscales. unfold movedSoFar in Hmoved. rewrite Z.add_0_l in Hmoved.
  pose proof (patched_nonneg evs) as Hnn.
  destruct fl as [a|[b e]].
  - simpl in Hmoved. subst a. intros Hrun.
    apply scaleMachineSetAndRecordEvent_performed in Hrun as (r & Hp2 & -> & Hr).
    eexists. split; [exact (performed_trans _ _ _ _ _ Hp Hp2)|]. count_calls.
    rewrite ?Z.add_0_l, ?Z.add_0_r.
    split_and!.
    + apply Forall_app. split; [by apply Forall_singleton|done].
    + apply Forall_app. split.
      * apply Forall_singleton, scalesWithin_up. lia.
      * done.
    + lia.
    + intros Hsize. split.
      * intros ->. left. destruct r as [e|]; [by destruct Hr|]. destruct Hr as [_ Hr].
        symmetry in Hr. apply bool_decide_eq_true in Hr.
        by apply (add_changes (isReplicas newIS)).
      * intros Hnone. destruct r as [e|]; [done|]. destruct Hr as [_ ->].
        rewrite bool_decide_eq_true, add_same by done. split; [by right|].
        intros [?|?]; [lia|done].
  - intros [= <- <- <-]. destruct Hmoved as [Herr Hflag].
    exists evs. split_and!; try done.
    intros Hsize. split; [intros Hb; left; by apply Hflag|]. by intros ->.
Qed.

(** X8.  What the progress flag of [reconcileNewMachineSetInPlace] means,
    for a new machine set with an [int32] size: it is set only when the
    ownership of a machine was moved or the new machine set is above the
    replicas of the deployment; and on a return without an error it is set
    exactly when the new machine set was above them or the [int32] count
    of the machines moved is not zero. *)
Theorem reconcileNewMachineSetInPlace_progress c w oldISs newIS deployment :
  Int32.in_range (isReplicas newIS) →
  let run := reconcileNewMachineSetInPlace c w oldISs newIS deployment in
  ∃ evs, performed w run.1 evs ∧
         (run.2.1 = true → 1 <= patched evs ∨ dReplicas deployment < isReplicas newIS) ∧
         (run.2.2 = None →
          run.2.1 = true ↔
          dReplicas deployment < isReplicas newIS ∨ Int32.wrap (patched evs) ≠ 0).
Proof.
  intros Hsize run. subst run.
  destruct (reconcileNewMachineSetInPlace c w oldISs newIS deployment)
    as [w' [scaled err]] eqn:Hrun.
  apply reconcileNewMachineSetInPlace_moves in Hrun as (evs & Hp & _ & _ & _ & Hflag).
  exists evs. split; [done|]. by apply Hflag.
Qed.

Lemma reconcileNewMachineSetInPlace_progress_witness :
  let c := Examples.still Examples.workers [Examples.updatedNode "n1"] Examples.noFaults in
  let run := reconcileNewMachineSetInPlace c Examples.start [Examples.oldIS] Examples.newIS
               Examples.deployment in
  ∃ evs, performed Examples.start run.1 evs ∧
         (run.2.1 = true →
          1 <= patched evs ∨ dReplicas Examples.deployment < isReplicas Examples.newIS) ∧
         (run.2.2 = None →
          run.2.1 = true ↔
          dReplicas Examples.deployment < isReplicas Examples.newIS ∨
          Int32.wrap (patched evs) ≠ 0).
Proof.
  apply (reconcileNewMachineSetInPlace_progress
           (Examples.still Examples.workers [Examples.updatedNode "n1"] Examples.noFaults)
           Examples.start [Examples.oldIS] Examples.newIS Examples.deployment).
  by vm_compute.
Defined.

(** X9.  Every machine patch of [reconcileNewMachineSetInPlace] names the
    new machine set as owner, by name and UID, and carries
    update-successful = "true"; the kind it writes is not "MachineSet"
    but the group, version and kind in one string,
    "machine.sapcloud.io/v1alpha1, Kind=MachineSet".  Every node update
    clears the unschedulable flag, and there is one node update for every
    patch that went through: a machine that was moved has its node
    uncordoned, or the attempt made, before anything else is called. *)
Theorem reconcileNewMachineSetInPlace_owner c w oldISs newIS deployment :
  let run := reconcileNewMachineSetInPlace c w oldISs newIS deployment in
  ∃ evs, performed w run.1 evs ∧ Forall (movesTo newIS) evs ∧
         uncordons evs = patched evs.
Proof.
  intros run. subst run.
  destruct (reconcileNewMachineSetInPlace c w oldISs newIS deployment)
    as [w' [scaled err]] eqn:Hrun.
  apply reconcileNewMachineSetInPlace_moves in Hrun as (evs & Hp & Hmoves & _ & Hpairs & _).
  by exists evs.
Qed.

(** X10.  Every scaling [reconcileNewMachineSetInPlace] asks for is one of
    three: the new machine set, above the replicas of the deployment, is
    set to them; the new machine set is raised by a number of machines
    between zero and the number moved in the pass; or an old machine set
    of the list is lowered by such a number.  No other machine set is
    scaled, and an old one is never raised (in [int32] arithmetic). *)
Theorem reconcileNewMachineSetInPlace_scalings c w oldISs newIS deployment :
  let run := reconcileNewMachineSetInPlace c w oldISs newIS deployment in
  ∃ evs, performed w run.1 evs ∧
         Forall (scalesWithin newIS oldISs deployment (patched evs)) evs.
Proof.
  intros run. subst run.
  destruct (reconcileNewMachineSetInPlace c w oldISs newIS deployment)
    as [w' [scaled err]] eqn:Hrun.
  apply reconcileNewMachineSetInPlace_moves in Hrun as (evs & Hp & _ & Hscales & _).
  by exists evs.
Qed.
